(** * spotifyDownloader.js: the resolution pipeline, embedded and verified

    The development follows [src/spotifyDownloader.js]:
    - JavaScript strings are sequences of UTF-16 code units, so that
      [String.prototype.length], [split] and [replace] count what the
      engine counts;
    - values read out of a JSON payload keep their JavaScript truthiness;
    - the network, the download tool and the file system are oracles and
      an explicit state, threaded through a small state monad together
      with the console and a ghost trace of what each stage returned. *)

From Stdlib Require Import ZArith NArith Lia String Ascii DecimalString.
From stdpp Require Import base decidable option countable list gmap.
From Stdlib Require Import Sorted Permutation.

Local Open Scope N_scope.
Local Open Scope list_scope.

(** ** JavaScript strings *)

(** A string is the list of its UTF-16 code units. *)
Abbreviation code_unit := N (only parsing).
Abbreviation jsstring := (list N) (only parsing).

(** ASCII literals of the source text. *)
Fixpoint lit (s : string) : jsstring :=
  match s with
  | EmptyString => []
  | String a s' => N_of_ascii a :: lit s'
  end.

(** [String.prototype.startsWith], at position 0. *)
Fixpoint starts_with (p s : jsstring) : bool :=
  match p, s with
  | [], _ => true
  | _ :: _, [] => false
  | a :: p', b :: s' => (a =? b) && starts_with p' s'
  end.

(** [String.prototype.includes]. *)
Fixpoint includes (s p : jsstring) : bool :=
  starts_with p s ||
  match s with
  | [] => false
  | _ :: s' => includes s' p
  end.

(** [String.prototype.endsWith]. *)
Definition ends_with (s p : jsstring) : bool :=
  starts_with (rev p) (rev s).

(** [Array.prototype.join]. *)
Fixpoint join (sep : jsstring) (l : list jsstring) : jsstring :=
  match l with
  | [] => []
  | [x] => x
  | x :: l' => x ++ sep ++ join sep l'
  end.

(** ** Values of a JSON payload

    A field of a record of the payload is absent ([undefined]), [null] or a
    string; the services this program talks to send nothing else in the
    fields it reads. *)
Inductive jsval : Type :=
  | JUndefined
  | JNull
  | JStr (s : jsstring).

#[global] Instance jsval_eq_dec : EqDecision jsval.
Proof. solve_decision. Defined.

#[global] Instance jsval_countable : Countable jsval.
Proof.
  refine (inj_countable'
    (fun v => match v with
              | JUndefined => inl false
              | JNull => inl true
              | JStr s => inr s
              end)
    (fun x => match x with
              | inl false => JUndefined
              | inl true => JNull
              | inr s => JStr s
              end) _).
  by intros [].
Defined.

(** ToBoolean: [undefined], [null] and the empty string are falsy. *)
Definition truthy (v : jsval) : bool :=
  match v with
  | JStr (_ :: _) => true
  | _ => false
  end.

(** [a || b] on values. *)
Definition js_or (a b : jsval) : jsval := if truthy a then a else b.

(** ToString, as a template literal applies it. *)
Definition to_str (v : jsval) : jsstring :=
  match v with
  | JUndefined => lit "undefined"
  | JNull => lit "null"
  | JStr s => s
  end.

(** ** EpisodeMatcher: the two filters built at lines 174-178 and 196-202 *)

Module Matcher.

(** The character class [[[\].*^$()+?{|\\]] of both [replace] calls:
    [[ ] . * ^ $ ( ) + ? { | \]. *)
Definition regex_class (c : code_unit) : bool :=
  (c =? 91) || (c =? 93) || (c =? 46) || (c =? 42) || (c =? 94) ||
  (c =? 36) || (c =? 40) || (c =? 41) || (c =? 43) || (c =? 63) ||
  (c =? 123) || (c =? 124) || (c =? 92).

(** [s.replace(/[[\].*^$()+?{|\\]/g, '\\$&')]: every code unit of the class
    is replaced by a backslash followed by itself. *)
Fixpoint escape_regex (s : jsstring) : jsstring :=
  match s with
  | [] => []
  | c :: s' =>
      if regex_class c then 92 :: c :: escape_regex s'
      else c :: escape_regex s'
  end.

(** Line 177. *)
Definition episodeFilter (title : jsstring) : jsstring := escape_regex title.

(** [\s] of a regular expression without the [u] flag: the white space and
    line terminator code units. *)
Definition is_space (c : code_unit) : bool :=
  ((9 <=? c) && (c <=? 13)) || (c =? 32) || (c =? 160) || (c =? 5760) ||
  ((8192 <=? c) && (c <=? 8202)) || (c =? 8232) || (c =? 8233) ||
  (c =? 8239) || (c =? 8287) || (c =? 12288) || (c =? 65279).

(** The class [[\s\-:,]] of the separator. *)
Definition is_sep (c : code_unit) : bool :=
  is_space c || (c =? 45) || (c =? 58) || (c =? 44).

(** [s.split(/[\s\-:,]+/)].  [cur] is the fragment being read, reversed;
    [in_sep] tells that the previous code unit belonged to a separator
    run.  As in JavaScript a string that starts or ends with a separator
    yields an empty first or last fragment. *)
Fixpoint split_go (cur : jsstring) (in_sep : bool) (s : jsstring)
  : list jsstring :=
  match s with
  | [] => [rev cur]
  | c :: s' =>
      if is_sep c then
        if in_sep then split_go cur true s'
        else rev cur :: split_go [] true s'
      else split_go (c :: cur) false s'
  end.

Definition split_title (s : jsstring) : list jsstring := split_go [] false s.

(** Lines 196-199. *)
Definition words (title : jsstring) : list jsstring :=
  map escape_regex
    (filter (fun word : jsstring => (2 < length word)%nat) (split_title title)).

(** Line 202: [`.*${words.join('.*')}.*`]. *)
Definition partialFilter (ws : list jsstring) : jsstring :=
  lit ".*" ++ join (lit ".*") ws ++ lit ".*".

(** Lines 196-204 as one function: the fuzzy filter, when one is built. *)
Definition fuzzyFilter (title : jsstring) : option jsstring :=
  let ws := words title in
  if (0 <? length ws)%nat then Some (partialFilter ws) else None.

(** *** Reading a pattern

    The download tool compiles the filter as a regular expression.  The
    filters built above use two constructs only: a literal code unit,
    written as itself or, for a character of the class [meta], after a
    backslash; and the wildcard gap [.*].  [tokens meta p] reads [p] in
    that fragment of the regular expression syntax; a character of [meta]
    that is not escaped (other than the [.] of a gap) is not a literal, and
    the pattern has no such reading.

    The reading is of the pattern as the module builds it, as a JavaScript
    regular expression without flags; what the shell makes of the command
    line that carries the pattern is not part of it. *)
Inductive tok : Type :=
  | TLit (c : code_unit)
  | TGap.

Fixpoint tokens (meta : code_unit -> bool) (p : jsstring)
  : option (list tok) :=
  match p with
  | [] => Some []
  | c :: p' =>
      if c =? 92 then
        match p' with
        | d :: p'' =>
            if meta d then cons (TLit d) <$> tokens meta p'' else None
        | [] => None
        end
      else if c =? 46 then
        match p' with
        | d :: p'' =>
            if d =? 42 then cons TGap <$> tokens meta p'' else None
        | [] => None
        end
      else if meta c then None
      else cons (TLit c) <$> tokens meta p'
  end.

(** The line terminators: the code units that [.] does not match in a
    regular expression without the [s] flag. *)
Definition is_line_terminator (c : code_unit) : bool :=
  (c =? 10) || (c =? 13) || (c =? 8232) || (c =? 8233).

(** A string without line terminator. *)
Definition line_free (s : jsstring) : bool :=
  forallb (fun c => negb (is_line_terminator c)) s.

(** A token list against a whole string: a literal takes one equal code
    unit, a gap any run of code units other than line terminators. *)
Fixpoint tmatch (ts : list tok) (s : jsstring) : bool :=
  match ts with
  | [] => match s with [] => true | _ :: _ => false end
  | TLit c :: ts' =>
      match s with
      | d :: s' => (c =? d) && tmatch ts' s'
      | [] => false
      end
  | TGap :: ts' =>
      (fix gap (s : jsstring) : bool :=
         tmatch ts' s ||
         match s with
         | [] => false
         | c :: s' => negb (is_line_terminator c) && gap s'
         end) s
  end.

(** The parts of a string that start at its first code unit, and all its
    parts. *)
Fixpoint prefixes (s : jsstring) : list jsstring :=
  [] :: match s with
        | [] => []
        | c :: s' => map (cons c) (prefixes s')
        end.

Fixpoint segments (s : jsstring) : list jsstring :=
  prefixes s ++ match s with
                | [] => []
                | _ :: s' => segments s'
                end.

(** A token list against some part of a string, as [RegExp.prototype.test]
    looks for a match. *)
Definition tsearch (ts : list tok) (s : jsstring) : bool :=
  existsb (tmatch ts) (segments s).

(** The tokens of the fuzzy filter of the fragments [frags]: a gap, the
    literals of each fragment with a gap between two fragments, a gap. *)
Fixpoint joined_tokens (frags : list jsstring) : list tok :=
  match frags with
  | [] => []
  | [f] => map TLit f
  | f :: frags' => map TLit f ++ TGap :: joined_tokens frags'
  end.

Definition fuzzy_tokens (frags : list jsstring) : list tok :=
  TGap :: joined_tokens frags ++ [TGap].

(** The metacharacter set of the specification: the class of the code and
    the closing brace. *)
Definition spec_class (c : code_unit) : bool := regex_class c || (c =? 125).

(** The characters of [meta] that stand unescaped in a pattern: a backslash
    escapes the code unit after it; a backslash that ends the pattern
    escapes nothing. *)
Fixpoint unescaped (meta : code_unit -> bool) (p : jsstring)
  : list code_unit :=
  match p with
  | [] => []
  | c :: p' =>
      if c =? 92 then
        match p' with
        | _ :: p'' => unescaped meta p''
        | [] => [c]
        end
      else if meta c then c :: unescaped meta p'
      else unescaped meta p'
  end.

(** *** What the specification asks of the fuzzy filter *)

(** A string without separator. *)
Definition sep_free (f : jsstring) : Prop :=
  Forall (fun c => is_sep c = false) f.

(** A run of separators. *)
Definition sep_run (r : jsstring) : Prop :=
  r <> [] /\ Forall (fun c => is_sep c = true) r.

(** [on_runs s frags]: [frags] are the fragments of [s] between its runs
    of separators, the runs taken as long as they go. *)
Inductive on_runs : jsstring -> list jsstring -> Prop :=
  | on_runs_last (f : jsstring) :
      sep_free f -> on_runs f [f]
  | on_runs_cons (f r rest : jsstring) (frags : list jsstring) :
      sep_free f -> sep_run r ->
      match rest with [] => True | c :: _ => is_sep c = false end ->
      on_runs rest frags ->
      on_runs (f ++ r ++ rest) (f :: frags).

(** [in_order frags s]: [s] contains the fragments, one after the other,
    with anything before, between and after them. *)
Fixpoint in_order (frags : list jsstring) (s : jsstring) : Prop :=
  match frags with
  | [] => True
  | f :: frags' =>
      exists pre post : jsstring, s = pre ++ f ++ post /\ in_order frags' post
  end.

(** [gapped frags s]: [s] is made of the fragments, one after the other,
    with a run free of line terminators before, between and after them. *)
Fixpoint gapped (frags : list jsstring) (s : jsstring) : Prop :=
  match frags with
  | [] => line_free s = true
  | f :: frags' =>
      exists gap post : jsstring,
        s = gap ++ f ++ post /\ line_free gap = true /\ gapped frags' post
  end.

End Matcher.

(** ** FeedIndexSearcher: the loop of lines 68-81 *)

Module Search.

(** A record of [data.results], with the three fields the loop reads. *)
Record itunes_result : Type := ItunesResult {
  r_feedUrl : jsval;
  r_collectionName : jsval;
  r_trackName : jsval
}.

(** The object [{ feedUrl, collectionName }] the search returns. *)
Record found : Type := Found {
  feedUrl : jsval;
  collectionName : jsval
}.

(** [result.collectionName || result.trackName || 'Unknown'] *)
Definition display_name (result : itunes_result) : jsval :=
  js_or (js_or (r_collectionName result) (r_trackName result))
        (JStr (lit "Unknown")).

(** [for (const result of results) { ... }] followed by [return null];
    [seen] is the [Set] of line 69, which line 78 extends each time the
    body does not return. *)
Fixpoint first_match (seen : gset jsval) (results : list itunes_result)
  : option found :=
  match results with
  | [] => None
  | result :: rest =>
      let feedUrl := r_feedUrl result in
      if truthy feedUrl && negb (bool_decide (feedUrl ∈ seen)) then
        Some {| feedUrl := feedUrl; collectionName := display_name result |}
      else first_match ({[feedUrl]} ∪ seen) rest
  end.

(** Lines 62-81, on the parsed payload: [data.results || []], the empty
    test and the loop.  [None] is [null]. *)
Definition search_results (results : option (list itunes_result))
  : option found :=
  let results := default [] results in
  if (length results =? 0)%nat then None else first_match ∅ results.

(** The candidate made of a result: its feedUrl and its display name. *)
Definition to_found (result : itunes_result) : found :=
  {| feedUrl := r_feedUrl result; collectionName := display_name result |}.

(** A result that bears a feedUrl. *)
Definition has_feedUrl (result : itunes_result) : bool :=
  truthy (r_feedUrl result).

(** The invariant of the loop: line 78 only ever adds a falsy value to
    [seen]. *)
Definition falsy_only (seen : gset jsval) : Prop :=
  forall v : jsval, v ∈ seen -> truthy v = false.

(** The candidates the search hands to its caller: none or one. *)
Definition candidates (results : list itunes_result) : list found :=
  option_list (search_results (Some results)).

(** The deduplication as the specification words it: results are visited
    in order, the first result bearing a feedUrl is kept with its display
    name, later results with a feedUrl already kept are dropped. *)
Fixpoint dedup_by_feedUrl (seen : gset jsval) (results : list itunes_result)
  : list found :=
  match results with
  | [] => []
  | result :: rest =>
      let feedUrl := r_feedUrl result in
      if truthy feedUrl && negb (bool_decide (feedUrl ∈ seen)) then
        {| feedUrl := feedUrl; collectionName := display_name result |}
          :: dedup_by_feedUrl ({[feedUrl]} ∪ seen) rest
      else dedup_by_feedUrl seen rest
  end.

End Search.

(** ** The world outside the program *)

(** A parsed JSON body, with the fields the program reads: [title] of the
    oEmbed answer and [results] of the search answer ([None]: absent). *)
Record payload : Type := Payload {
  p_title : jsval;
  p_results : option (list Search.itunes_result)
}.

(** What [fetch] resolves to: the status and what [response.json()] gives,
    the message of the error it rejects with or the parsed body. *)
Record response : Type := Response {
  status : Z;
  json : jsstring + payload
}.

(** [response.ok] *)
Definition ok (r : response) : bool :=
  ((200 <=? status r) && (status r <=? 299))%Z.

(** The built-ins and services the program calls.  [ext] is the state of
    everything outside it (network, file system, the download tool's
    processes).  A result [inl message] is an exception thrown, or a
    promise rejected, with that [error.message]. *)
Class Runtime : Type := {
  ext : Type;
  encodeURIComponent : jsstring -> jsstring + jsstring;
  fetch : jsstring -> ext -> (jsstring + response) * ext;
  existsSync : jsstring -> ext -> bool;
  mkdirSync : jsstring -> ext -> (jsstring + unit) * ext;
  (** [execAsync(command, { timeout, maxBuffer })] resolves to
      [(stdout, stderr)] *)
  execAsync : jsstring -> Z -> Z -> ext ->
              (jsstring + jsstring * jsstring) * ext;
  readdirSync : jsstring -> ext -> jsstring + list jsstring;
  (** [fs.statSync(p).mtime], in milliseconds *)
  statSync_mtime : jsstring -> ext -> jsstring + Z;
  path_join : jsstring -> jsstring -> jsstring
}.

(** What [fetch] gave is a transport error: the promise was rejected, or
    the status is not a success. *)
Definition transport_error (r : jsstring + response) : bool :=
  match r with
  | inl _ => true
  | inr response => negb (ok response)
  end.

(** What [fetch] gave cannot be read: the status is a success and
    [response.json()] rejects. *)
Definition unparsable (r : jsstring + response) : bool :=
  match r with
  | inl _ => false
  | inr response =>
      ok response &&
      match json response with
      | inl _ => true
      | inr _ => false
      end
  end.

(** A call of [console.log] or [console.error], with its arguments. *)
Inductive console_call : Type :=
  | ConsoleLog (args : list jsstring)
  | ConsoleError (args : list jsstring).

(** The classification of line 33. *)
Inductive kind : Type := episode | show.

(** The object [{ title, type }] of [getSpotifyInfo]. *)
Record spotify_info : Type := SpotifyInfo {
  info_title : jsval;
  info_type : kind
}.

(** The object a download attempt returns:
    [{ success: true, filePath, fileName }] or
    [{ success: false, error }]. *)
Inductive download_result : Type :=
  | Downloaded (filePath fileName : jsstring)
  | NotDownloaded (error : jsstring).

Definition success (r : download_result) : bool :=
  match r with
  | Downloaded _ _ => true
  | NotDownloaded _ => false
  end.

(** The arguments of a call of [downloadFromRss]. *)
Record attempt : Type := Attempt {
  a_rssUrl : jsval;
  a_outputDir : jsstring;
  a_episodeFilter : jsval
}.

(** Ghost events: what each stage of a run returned.
    - [Resolved]: [getSpotifyInfo] returned ([None] is [null]);
    - [Searched]: [searchItunesRss] returned;
    - [Executed]: the download tool was run with this command line, and
      rejected with a message or resolved to [(stdout, stderr)];
    - [Attempted]: [downloadFromRss] was called with these arguments and
      returned this outcome. *)
Inductive event : Type :=
  | Resolved (info : option spotify_info)
  | Searched (itunesResult : option Search.found)
  | Executed (command : jsstring) (outcome : jsstring + jsstring * jsstring)
  | Attempted (a : attempt) (r : download_result).

(** The state a run goes through: the outside world, what was written to
    the console and, as a ghost, the events of the run (both oldest
    first). *)
Record world `{Runtime} : Type := World {
  outside : ext;
  console : list console_call;
  trace : list event
}.

(** ** The program *)

Section Program.
Context `{RT : Runtime}.

(** *** A state monad with exceptions

    A computation takes the world and gives it back with a value, or with
    the message of the error thrown. *)
Definition M (A : Type) : Type := world -> (jsstring + A) * world.

Definition ret {A : Type} (a : A) : M A := fun w => (inr a, w).

Definition throw {A : Type} (message : jsstring) : M A :=
  fun w => (inl message, w).

Definition bind {A B : Type} (m : M A) (k : A -> M B) : M B :=
  fun w =>
    match m w with
    | (inl message, w') => (inl message, w')
    | (inr a, w') => k a w'
    end.

(** [try { body } catch (error) { handler(error.message) }] *)
Definition try_catch {A : Type} (body : M A) (handler : jsstring -> M A)
  : M A :=
  fun w =>
    match body w with
    | (inl message, w') => handler message w'
    | (inr a, w') => (inr a, w')
    end.

Notation "'let*' x ':=' m 'in' k" := (bind m (fun x => k))
  (at level 10, x name, m at level 100, k at level 200).
Notation "m ';;' k" := (bind m (fun _ => k))
  (at level 100, k at level 200, right associativity).

(** The value of an expression that may throw. *)
Definition throws {A : Type} (r : jsstring + A) : M A :=
  match r with
  | inl message => throw message
  | inr a => ret a
  end.

(** An operation on the outside world. *)
Definition outside_op {A : Type} (op : ext -> (jsstring + A) * ext) : M A :=
  fun w =>
    let (r, e) := op (outside w) in
    (r, {| outside := e; console := console w; trace := trace w |}).

(** A read of the outside world. *)
Definition outside_read {A : Type} (op : ext -> A) : M A :=
  fun w => (inr (op (outside w)), w).

Definition console_log (args : list jsstring) : M unit :=
  fun w =>
    (inr tt, {| outside := outside w;
                console := console w ++ [ConsoleLog args];
                trace := trace w |}).

Definition console_error (args : list jsstring) : M unit :=
  fun w =>
    (inr tt, {| outside := outside w;
                console := console w ++ [ConsoleError args];
                trace := trace w |}).

(** Ghost: an event is added to the trace. *)
Definition note (ev : event) : M unit :=
  fun w =>
    (inr tt, {| outside := outside w;
                console := console w;
                trace := trace w ++ [ev] |}).

(** Ghost: a computation whose value, or error, is noted when it ends. *)
Definition noting {A : Type} (ev : jsstring + A -> event) (m : M A) : M A :=
  fun w =>
    let (r, w') := m w in
    (r, {| outside := outside w';
           console := console w';
           trace := trace w' ++ [ev r] |}).

(** Ghost: a computation that does not throw, whose value is noted. *)
Definition returning {A : Type} (ev : A -> event) (m : M A) : M A :=
  let* a := m in
  note (ev a);;
  ret a.

(** A sequence of computations, as [Array.prototype.map] runs a callback
    that may throw. *)
Fixpoint map_M {A B : Type} (f : A -> M B) (l : list A) : M (list B) :=
  match l with
  | [] => ret []
  | x :: l' =>
      let* y := f x in
      let* ys := map_M f l' in
      ret (y :: ys)
  end.

(** [`${n}`] for an integer. *)
Definition number_to_str (n : Z) : jsstring :=
  lit (NilZero.string_of_int (Z.to_int n)).

(** *** getSpotifyInfo (lines 25-42) *)

Definition getSpotifyInfo (spotifyUrl : jsstring) : M (option spotify_info) :=
  returning Resolved (try_catch
    (let* encoded := throws (encodeURIComponent spotifyUrl) in
     let* response :=
       outside_op (fetch (lit "https://open.spotify.com/oembed?url=" ++ encoded)) in
     if negb (ok response) then
       console_error
         [lit "Spotify oEmbed failed: " ++ number_to_str (status response)];;
       ret None
     else
       let* data := throws (json response) in
       let type := if includes spotifyUrl (lit "/episode/") then episode
                   else show in
       ret (Some {| info_title := js_or (p_title data) JNull;
                    info_type := type |}))
    (fun message =>
       console_error [lit "Error fetching Spotify info:"; message];;
       ret None)).

(** *** searchItunesRss (lines 50-86) *)

Definition search_url (encodedQuery entity : jsstring) : jsstring :=
  lit "https://itunes.apple.com/search?term=" ++ encodedQuery
  ++ lit "&media=podcast&entity=" ++ entity ++ lit "&limit=10".

Definition searchItunesRss (query entity : jsstring)
  : M (option Search.found) :=
  returning Searched (try_catch
    (let* encodedQuery := throws (encodeURIComponent query) in
     let url := search_url encodedQuery entity in
     let* response := outside_op (fetch url) in
     if negb (ok response) then
       console_error
         [lit "iTunes search failed: " ++ number_to_str (status response)];;
       ret None
     else
       let* data := throws (json response) in
       ret (Search.search_results (p_results data)))
    (fun message =>
       console_error [lit "Error searching iTunes:"; message];;
       ret None)).

(** *** downloadFromRss (lines 95-149) *)

(** The double quote. *)
Definition dquote : jsstring := [34].

(** [episodeFilter.replace(/"/g, '\\"')] *)
Fixpoint escape_dquotes (s : jsstring) : jsstring :=
  match s with
  | [] => []
  | c :: s' =>
      if c =? 34 then 92 :: 34 :: escape_dquotes s'
      else c :: escape_dquotes s'
  end.

(** Lines 103-109. *)
Definition build_command (rssUrl : jsval) (outputDir : jsstring)
    (episodeFilter : jsval) : jsstring :=
  let command :=
    lit "npx podcast-dl --url " ++ dquote ++ to_str rssUrl ++ dquote
    ++ lit " --out-dir " ++ dquote ++ outputDir ++ dquote
    ++ lit " --episode-template " ++ dquote ++ lit "{{episode_title}}"
    ++ dquote in
  if truthy episodeFilter then
    let escapedFilter := escape_dquotes (to_str episodeFilter) in
    command ++ lit " --episode-regex " ++ dquote ++ escapedFilter ++ dquote
  else command.

(** The extension allow-list of lines 123-125. *)
Definition is_audio (f : jsstring) : bool :=
  ends_with f (lit ".mp3") || ends_with f (lit ".m4a")
  || ends_with f (lit ".wav").

Record file_stats : Type := FileStats {
  name : jsstring;
  path : jsstring;
  mtime : Z
}.

(** [filesWithStats.sort((a, b) => b.mtime - a.mtime)]: the sort is stable;
    [a] stays before [b] unless the comparator is positive. *)
Definition comparator (a b : file_stats) : Z := (mtime b - mtime a)%Z.

Fixpoint sort_insert (a : file_stats) (l : list file_stats)
  : list file_stats :=
  match l with
  | [] => [a]
  | b :: l' =>
      if (comparator a b <=? 0)%Z then a :: b :: l'
      else b :: sort_insert a l'
  end.

Definition sort_by_mtime (l : list file_stats) : list file_stats :=
  foldr sort_insert [] l.

(** The callback of [files.map] at lines 132-136. *)
Definition stat_file (outputDir f : jsstring) : M file_stats :=
  let* t := outside_read (statSync_mtime (path_join outputDir f)) in
  let* t := throws t in
  ret {| name := f; path := path_join outputDir f; mtime := t |}.

(** Lines 122-144: the downloaded file is looked for. *)
Definition find_downloaded (outputDir : jsstring) : M download_result :=
  let* listing := outside_read (readdirSync outputDir) in
  let* listing := throws listing in
  let files := List.filter is_audio listing in
  if (length files =? 0)%nat then
    ret (NotDownloaded (lit "No audio files downloaded"))
  else
    let* filesWithStats := map_M (stat_file outputDir) files in
    match sort_by_mtime filesWithStats with
    | first :: _ => ret (Downloaded (path first) (name first))
    | [] => throw (lit "Cannot read properties of undefined (reading 'path')")
    end.

(** Lines 102-144: the tool is run and the downloaded file looked for. *)
Definition run_tool (rssUrl : jsval) (outputDir : jsstring)
    (episodeFilter : jsval) : M download_result :=
  let command := build_command rssUrl outputDir episodeFilter in
  console_log [lit "[SpotifyDownloader] Running: " ++ command];;
  let* out :=
    noting (Executed command)
      (outside_op (execAsync command 600000 (50 * 1024 * 1024))) in
  let stderr := snd out in
  (if negb (length stderr =? 0)%nat && negb (includes stderr (lit "npm warn"))
   then console_log [lit "[SpotifyDownloader] stderr: " ++ stderr]
   else ret tt);;
  find_downloaded outputDir.

Definition downloadFromRss (rssUrl : jsval) (outputDir : jsstring)
    (episodeFilter : jsval) : M download_result :=
  returning (Attempted {| a_rssUrl := rssUrl; a_outputDir := outputDir;
                          a_episodeFilter := episodeFilter |}) (try_catch
    (let* present := outside_read (existsSync outputDir) in
     (if negb present then outside_op (mkdirSync outputDir) else ret tt);;
     run_tool rssUrl outputDir episodeFilter)
    (fun message =>
       console_error [lit "[SpotifyDownloader] Download error:"; message];;
       ret (NotDownloaded message))).

(** *** downloadSpotifyEpisode (lines 159-219) *)

(** The object the pipeline returns. *)
Inductive pipeline_result : Type :=
  | Failed (error : jsstring)
  | Succeeded (filePath fileName title : jsstring)
              (podcastName rssUrl : jsval).

(** Lines 207-218: what the pipeline returns after its last attempt. *)
Definition final_result (title : jsstring) (itunesResult : Search.found)
    (downloadResult : download_result) : pipeline_result :=
  match downloadResult with
  | NotDownloaded error => Failed error
  | Downloaded filePath fileName =>
      Succeeded filePath fileName title
                (Search.collectionName itunesResult)
                (Search.feedUrl itunesResult)
  end.

Definition downloadSpotifyEpisode (spotifyUrl outputDir : jsstring)
  : M pipeline_result :=
  console_log [lit "[SpotifyDownloader] Starting download for: " ++ spotifyUrl];;
  let* spotifyInfo := getSpotifyInfo spotifyUrl in
  match spotifyInfo with
  | None => ret (Failed (lit "Could not fetch podcast info from Spotify"))
  | Some spotifyInfo =>
    if negb (truthy (info_title spotifyInfo)) then
      ret (Failed (lit "Could not fetch podcast info from Spotify"))
    else
      let title := to_str (info_title spotifyInfo) in
      console_log [lit "[SpotifyDownloader] Found title: " ++ title];;
      let entity := match info_type spotifyInfo with
                    | episode => lit "podcastEpisode"
                    | show => lit "podcast"
                    end in
      let episodeFilter := match info_type spotifyInfo with
                           | episode => JStr (Matcher.episodeFilter title)
                           | show => JNull
                           end in
      let* itunesResult := searchItunesRss title entity in
      match itunesResult with
      | None => ret (Failed (lit "Could not find RSS feed in iTunes"))
      | Some itunesResult =>
        if negb (truthy (Search.feedUrl itunesResult)) then
          ret (Failed (lit "Could not find RSS feed in iTunes"))
        else
          console_log [lit "[SpotifyDownloader] Found RSS feed: "
                       ++ to_str (Search.feedUrl itunesResult)];;
          console_log [lit "[SpotifyDownloader] Podcast: "
                       ++ to_str (Search.collectionName itunesResult)];;
          let* downloadResult :=
            downloadFromRss (Search.feedUrl itunesResult) outputDir
                            episodeFilter in
          let* downloadResult :=
            match success downloadResult, info_type spotifyInfo with
            | false, episode =>
                console_log [lit "[SpotifyDownloader] Exact match failed, trying partial name matching..."];;
                let words := Matcher.words title in
                if (0 <? length words)%nat then
                  downloadFromRss (Search.feedUrl itunesResult) outputDir
                                  (JStr (Matcher.partialFilter words))
                else ret downloadResult
            | _, _ => ret downloadResult
            end in
          ret (final_result title itunesResult downloadResult)
      end
  end.

End Program.

(** ** Reading a trace *)

(** The download attempts of a trace with their outcomes, oldest first. *)
Fixpoint outcomes (evs : list event) : list (attempt * download_result) :=
  match evs with
  | [] => []
  | Attempted a r :: evs' => (a, r) :: outcomes evs'
  | _ :: evs' => outcomes evs'
  end.

(** The command lines the download tool was run with, oldest first. *)
Fixpoint commands (evs : list event) : list jsstring :=
  match evs with
  | [] => []
  | Executed command _ :: evs' => command :: commands evs'
  | _ :: evs' => commands evs'
  end.

(** The events of one call of [downloadFromRss] before it returns: the
    run of the tool, unless the directory could not be made. *)
Definition tool_events (evs : list event) : Prop :=
  evs = [] \/ exists command outcome, evs = [Executed command outcome].

(** The classification of line 33. *)
Definition kind_of (spotifyUrl : jsstring) : kind :=
  if includes spotifyUrl (lit "/episode/") then episode else show.

(** The resolved title, as a string. *)
Definition title_of (info : spotify_info) : jsstring :=
  to_str (info_title info).

(** The arguments of the first download attempt (line 190). *)
Definition first_attempt (info : spotify_info) (itunesResult : Search.found)
    (outputDir : jsstring) : attempt :=
  {| a_rssUrl := Search.feedUrl itunesResult;
     a_outputDir := outputDir;
     a_episodeFilter :=
       match info_type info with
       | episode => JStr (Matcher.episodeFilter (title_of info))
       | show => JNull
       end |}.

(** The arguments of the second download attempt (line 203). *)
Definition fuzzy_attempt (info : spotify_info) (itunesResult : Search.found)
    (outputDir : jsstring) : attempt :=
  {| a_rssUrl := Search.feedUrl itunesResult;
     a_outputDir := outputDir;
     a_episodeFilter :=
       JStr (Matcher.partialFilter (Matcher.words (title_of info))) |}.

(** The runs of the pipeline: the events a run adds to the trace, and what
    it returns. *)
Inductive run_shape (spotifyUrl outputDir : jsstring)
  : list event -> pipeline_result -> Prop :=
  | run_unresolved (info : option spotify_info) :
      match info with
      | None => True
      | Some info => truthy (info_title info) = false
      end ->
      run_shape spotifyUrl outputDir
        [Resolved info]
        (Failed (lit "Could not fetch podcast info from Spotify"))
  | run_no_feed (info : spotify_info) :
      truthy (info_title info) = true ->
      info_type info = kind_of spotifyUrl ->
      run_shape spotifyUrl outputDir
        [Resolved (Some info); Searched None]
        (Failed (lit "Could not find RSS feed in iTunes"))
  | run_one_attempt (info : spotify_info) (itunesResult : Search.found)
      (tool1 : list event) (r1 : download_result) :
      truthy (info_title info) = true ->
      info_type info = kind_of spotifyUrl ->
      truthy (Search.feedUrl itunesResult) = true ->
      tool_events tool1 ->
      success r1 = true \/ info_type info = show
        \/ Matcher.words (title_of info) = [] ->
      run_shape spotifyUrl outputDir
        ([Resolved (Some info); Searched (Some itunesResult)] ++ tool1
         ++ [Attempted (first_attempt info itunesResult outputDir) r1])
        (final_result (title_of info) itunesResult r1)
  | run_two_attempts (info : spotify_info) (itunesResult : Search.found)
      (tool1 tool2 : list event) (r1 r2 : download_result) :
      truthy (info_title info) = true ->
      info_type info = kind_of spotifyUrl ->
      truthy (Search.feedUrl itunesResult) = true ->
      tool_events tool1 -> tool_events tool2 ->
      success r1 = false -> info_type info = episode ->
      Matcher.words (title_of info) <> [] ->
      run_shape spotifyUrl outputDir
        ([Resolved (Some info); Searched (Some itunesResult)] ++ tool1
         ++ [Attempted (first_attempt info itunesResult outputDir) r1]
         ++ tool2
         ++ [Attempted (fuzzy_attempt info itunesResult outputDir) r2])
        (final_result (title_of info) itunesResult r2).

(** ** A scripted runtime, to run the program on concrete inputs *)

Module Fixture.

(** The outside world: what the two services answer, what the download
    tool does to the files of the output directory, and that directory
    ([None]: it does not exist), as names with modification times. *)
Record state : Type := State {
  oembed : jsstring + response;
  search : jsstring + response;
  tool : jsstring -> list (jsstring * Z) ->
         (jsstring + jsstring * jsstring) * list (jsstring * Z);
  dir : option (list (jsstring * Z))
}.

Definition find_mtime (p : jsstring) (files : list (jsstring * Z))
  : jsstring + Z :=
  match List.find (fun f => ends_with p (lit "/" ++ fst f)) files with
  | Some f => inr (snd f)
  | None => inl (lit "ENOENT: no such file or directory")
  end.

#[export] Instance runtime : Runtime := {|
  ext := state;
  encodeURIComponent := fun s => inr s;
  fetch := fun url st =>
    if starts_with (lit "https://open.spotify.com/") url
    then (oembed st, st) else (search st, st);
  existsSync := fun _ st => bool_decide (is_Some (dir st));
  mkdirSync := fun _ st =>
    (inr tt, {| oembed := oembed st; search := search st; tool := tool st;
                dir := Some [] |});
  execAsync := fun command _ _ st =>
    let (r, files) := tool st command (default [] (dir st)) in
    (r, {| oembed := oembed st; search := search st; tool := tool st;
           dir := Some files |});
  readdirSync := fun _ st =>
    match dir st with
    | Some files => inr (map fst files)
    | None => inl (lit "ENOENT: no such file or directory")
    end;
  statSync_mtime := fun p st => find_mtime p (default [] (dir st));
  path_join := fun d f => d ++ lit "/" ++ f
|}.

(** An answer with status 200 and a parsed body. *)
Definition answer (title : jsval) (results : option (list Search.itunes_result))
  : jsstring + response :=
  inr {| status := 200;
         json := inr {| p_title := title; p_results := results |} |}.

(** A tool that exits with status 0 after writing the files [new]. *)
Definition tool_writes (new : list (jsstring * Z))
  : jsstring -> list (jsstring * Z) ->
    (jsstring + jsstring * jsstring) * list (jsstring * Z) :=
  fun _ files => (inr ([], []), files ++ new).

(** A tool that writes [new] when its filter starts with a wildcard gap,
    and nothing otherwise. *)
Definition tool_fuzzy_only (new : list (jsstring * Z))
  : jsstring -> list (jsstring * Z) ->
    (jsstring + jsstring * jsstring) * list (jsstring * Z) :=
  fun command files =>
    if includes command (lit "--episode-regex " ++ dquote ++ lit ".*")
    then (inr ([], []), files ++ new)
    else (inr ([], []), files).

Definition start (st : state) : world :=
  {| outside := st; console := []; trace := [] |}.

Definition feed_x : jsval := JStr (lit "https://feed.example/x.xml").
Definition feed_y : jsval := JStr (lit "https://feed.example/y.xml").

Definition result_x1 : Search.itunes_result :=
  {| Search.r_feedUrl := feed_x;
     Search.r_collectionName := JStr (lit "First Name");
     Search.r_trackName := JUndefined |}.

Definition result_x2 : Search.itunes_result :=
  {| Search.r_feedUrl := feed_x;
     Search.r_collectionName := JStr (lit "Second Name");
     Search.r_trackName := JUndefined |}.

Definition result_y : Search.itunes_result :=
  {| Search.r_feedUrl := feed_y;
     Search.r_collectionName := JUndefined;
     Search.r_trackName := JStr (lit "Track Y") |}.

Definition result_nofeed : Search.itunes_result :=
  {| Search.r_feedUrl := JUndefined;
     Search.r_collectionName := JStr (lit "No Feed");
     Search.r_trackName := JUndefined |}.

Definition no_answer : jsstring + response := inl (lit "fetch failed").

(** A show whose feed downloads two files. *)
Definition st_show : state :=
  {| oembed := answer (JStr (lit "My Show")) None;
     search := answer JUndefined (Some [result_x1; result_x2]);
     tool := tool_writes [(lit "one.mp3", 1%Z); (lit "two.m4a", 2%Z)];
     dir := None |}.

(** An episode that the exact filter misses and the fuzzy filter finds. *)
Definition st_retry : state :=
  {| oembed := answer (JStr (lit "Episode 42: Deep Dive")) None;
     search := answer JUndefined (Some [result_x1; result_x2]);
     tool := tool_fuzzy_only [(lit "Episode 42.mp3", 5%Z)];
     dir := None |}.

(** An episode whose title has short fragments only, and that the tool
    does not find. *)
Definition st_short : state :=
  {| oembed := answer (JStr (lit "Ab: cd")) None;
     search := answer JUndefined (Some [result_y]);
     tool := tool_writes [];
     dir := None |}.

(** The index answers with an empty list; the index answers 500; the
    index cannot be reached. *)
Definition st_no_feed : state :=
  {| oembed := answer (JStr (lit "Episode 42: Deep Dive")) None;
     search := answer JUndefined (Some []);
     tool := tool_writes [(lit "never.mp3", 1%Z)];
     dir := None |}.

Definition st_index_500 : state :=
  {| oembed := answer (JStr (lit "Episode 42: Deep Dive")) None;
     search := inr {| status := 500; json := inl (lit "Unexpected token") |};
     tool := tool_writes [(lit "never.mp3", 1%Z)];
     dir := None |}.

Definition st_index_down : state :=
  {| oembed := answer (JStr (lit "Episode 42: Deep Dive")) None;
     search := no_answer;
     tool := tool_writes [(lit "never.mp3", 1%Z)];
     dir := None |}.

(** The tool exits with status 0 and leaves a text file only. *)
Definition st_txt : state :=
  {| oembed := answer (JStr (lit "My Show")) None;
     search := answer JUndefined (Some [result_x1]);
     tool := tool_writes [(lit "notes.txt", 1%Z)];
     dir := None |}.

Definition episode_url : jsstring :=
  lit "https://open.spotify.com/episode/56AGRQErADHFMlMV4Gm7y4".

Definition show_url : jsstring := lit "https://open.spotify.com/show/SHOW_ID".

Definition out_dir : jsstring := lit "./downloads".


Definition no_audio : download_result :=
  NotDownloaded (lit "No audio files downloaded").

End Fixture.

(** [a] is at least as recent as [b]. *)
Definition not_older (a b : file_stats) : Prop := (mtime b <= mtime a)%Z.

(** ** The clean-up functions (lines 226-257) *)

(** The two calls of [fs] that delete: [fs.unlinkSync(path)] and
    [fs.rmSync(path, { recursive: true, force: true })]. *)
Class CleanupRuntime `{RT : Runtime} : Type := {
  unlinkSync : jsstring -> ext -> (jsstring + unit) * ext;
  rmSync : jsstring -> ext -> (jsstring + unit) * ext
}.

Section Cleanup.
Context `{CR : CleanupRuntime}.

(** [path && fs.existsSync(path)] *)
Definition present_at (path : jsval) : M bool :=
  if truthy path then outside_read (existsSync (to_str path)) else ret false.

(** Lines 226-238. *)
Definition cleanupAudioFile (filePath : jsval) : M bool :=
  try_catch
    (bind (present_at filePath) (fun present =>
     if present then
       bind (outside_op (unlinkSync (to_str filePath))) (fun _ =>
       bind (console_log [lit "[SpotifyDownloader] Cleaned up: "
                          ++ to_str filePath]) (fun _ =>
       ret true))
     else ret false))
    (fun message =>
       bind (console_error [lit "[SpotifyDownloader] Cleanup error: "
                            ++ message]) (fun _ =>
       ret false)).

(** Lines 245-257. *)
Definition cleanupDownloadDir (dirPath : jsval) : M bool :=
  try_catch
    (bind (present_at dirPath) (fun present =>
     if present then
       bind (outside_op (rmSync (to_str dirPath))) (fun _ =>
       bind (console_log [lit "[SpotifyDownloader] Cleaned up directory: "
                          ++ to_str dirPath]) (fun _ =>
       ret true))
     else ret false))
    (fun message =>
       bind (console_error [lit "[SpotifyDownloader] Directory cleanup error: "
                            ++ message]) (fun _ =>
       ret false)).

End Cleanup.

(** ** The script [download-podcast.sh] *)

Module Script.

(** [d.get(key, default)] of the Python fragments: the default stands for
    a missing key only; a key that is there with [null] gives [None]. *)
Definition py_get (v default : jsval) : jsval :=
  match v with
  | JUndefined => default
  | _ => v
  end.

(** Lines 101-108: the loop that fills [unique]; [seen] is the set of
    line 102. *)
Fixpoint unique_from (seen : gset jsval) (results : list Search.itunes_result)
  : list Search.itunes_result :=
  match results with
  | [] => []
  | r :: rest =>
      let feed := py_get (Search.r_feedUrl r) (JStr []) in
      if truthy feed && negb (bool_decide (feed ∈ seen)) then
        r :: unique_from ({[feed]} ∪ seen) rest
      else unique_from seen rest
  end.

Definition unique (results : list Search.itunes_result)
  : list Search.itunes_result :=
  unique_from ∅ results.

(** Lines 114-117: the lines printed for the entries of [unique[:5]],
    numbered from [i]; [None.replace] raises, which ends the output. *)
Fixpoint listing_lines (i : Z) (entries : list Search.itunes_result)
  : list jsstring :=
  match entries with
  | [] => []
  | r :: rest =>
      match py_get (Search.r_collectionName r) (JStr (lit "Unknown")) with
      | JStr name =>
          (number_to_str i ++ [9]
           ++ map (fun c => if c =? 9 then 32 else c) name ++ [9]
           ++ to_str (py_get (Search.r_feedUrl r) (JStr [])))
          :: listing_lines (i + 1) rest
      | _ => []
      end
  end.

(** Lines 93-117: the lines the Python fragment of
    [search_itunes_interactive] prints for a parsed answer. *)
Definition interactive_lines (results : option (list Search.itunes_result))
  : list jsstring :=
  match results with
  | None | Some [] => [lit "NO_RESULTS"]
  | Some results =>
      match unique results with
      | [r] =>
          [lit "SINGLE:" ++ to_str (py_get (Search.r_feedUrl r) (JStr []))]
      | entries => lit "MULTIPLE" :: listing_lines 1 (take 5 entries)
      end
  end.

(** The bracket expression [[[\.*^$()+?{|]] of line 261:
    [[ \ . * ^ $ ( ) + ? { |]. *)
Definition sed_class (c : code_unit) : bool :=
  (c =? 91) || (c =? 92) || (c =? 46) || (c =? 42) || (c =? 94) ||
  (c =? 36) || (c =? 40) || (c =? 41) || (c =? 43) || (c =? 63) ||
  (c =? 123) || (c =? 124).

(** [sed 's/[[\.*^$()+?{|]/\\&/g'] on one line. *)
Fixpoint sed_escape (line : jsstring) : jsstring :=
  match line with
  | [] => []
  | c :: line' =>
      if sed_class c then 92 :: c :: sed_escape line'
      else c :: sed_escape line'
  end.

(** [sed] reads its input line by line: each line goes through the
    substitution and is written back, with its newline when it had one.
    [cur] is the line being read, reversed. *)
Fixpoint sed_lines (cur : jsstring) (input : jsstring) : jsstring :=
  match input with
  | [] => sed_escape (rev cur)
  | c :: input' =>
      if c =? 10 then sed_escape (rev cur) ++ 10 :: sed_lines [] input'
      else sed_lines (c :: cur) input'
  end.

Definition sed (input : jsstring) : jsstring := sed_lines [] input.

(** What [echo] of bash takes for options: a hyphen followed by one or
    more of the letters [n], [e] and [E]. *)
Definition echo_option (arg : jsstring) : bool :=
  match arg with
  | c :: d :: flags =>
      (c =? 45) &&
      forallb (fun f => (f =? 110) || (f =? 101) || (f =? 69)) (d :: flags)
  | _ => false
  end.

(** [echo "$arg"]: an argument taken for options is not written, and the
    newline is left out when [n] is among them; any other argument is
    written as it is, with a newline after it. *)
Definition echo (arg : jsstring) : jsstring :=
  if echo_option arg then
    if existsb (fun f => f =? 110) arg then [] else [10]
  else arg ++ [10].

(** [$(...)]: the output of the command without the newlines that end
    it. *)
Fixpoint command_substitution (out : jsstring) : jsstring :=
  match out with
  | [] => []
  | c :: out' =>
      match command_substitution out' with
      | [] => if c =? 10 then [] else [c]
      | rest => c :: rest
      end
  end.

(** Line 261: [$(echo "$episode_filter" | sed 's/[[\.*^$()+?{|]/\\&/g')]. *)
Definition script_filter (episode_filter : jsstring) : jsstring :=
  command_substitution (sed (echo episode_filter)).

End Script.

(** The title was not resolved: [!spotifyInfo || !spotifyInfo.title]. *)
Definition title_missing (info : option spotify_info) : bool :=
  match info with
  | None => true
  | Some info => negb (truthy (info_title info))
  end.

(** ** More scripted runs *)

Module Scenario.
Import Fixture.

(** The oEmbed endpoint answers 404; it answers without title. *)
Definition st_oembed_404 : state :=
  {| oembed := inr {| status := 404; json := inl (lit "Unexpected token") |};
     search := answer JUndefined (Some [result_x1]);
     tool := tool_writes [(lit "never.mp3", 1%Z)];
     dir := None |}.

Definition st_no_title : state :=
  {| oembed := answer JUndefined None;
     search := answer JUndefined (Some [result_x1]);
     tool := tool_writes [(lit "never.mp3", 1%Z)];
     dir := None |}.

(** The tool fails; the directory holds an older download. *)
Definition st_tool_fails : state :=
  {| oembed := answer (JStr (lit "My Show")) None;
     search := answer JUndefined (Some [result_x1]);
     tool := fun _ files => (inl (lit "Command failed: npx podcast-dl"), files);
     dir := Some [(lit "old.mp3", 1%Z)] |}.

(** The tool writes nothing; the directory holds two older downloads. *)
Definition st_stale : state :=
  {| oembed := answer (JStr (lit "My Show")) None;
     search := answer JUndefined (Some [result_x1]);
     tool := tool_writes [];
     dir := Some [(lit "old.mp3", 7%Z); (lit "older.wav", 3%Z);
                  (lit "cover.jpg", 9%Z)] |}.

(** The index answers 200 with a body that is not JSON. *)
Definition st_index_garbled : state :=
  {| oembed := answer (JStr (lit "Episode 42: Deep Dive")) None;
     search := inr {| status := 200; json := inl (lit "Unexpected token <") |};
     tool := tool_writes [(lit "never.mp3", 1%Z)];
     dir := None |}.

(** Deleting in the scripted file system: a file is named by the path
    [dir/name]; [blocked] is a path that cannot be deleted. *)
Definition blocked : jsstring := lit "./downloads/locked.mp3".

#[export] Instance cleanup_runtime : @CleanupRuntime runtime := {|
  unlinkSync := fun p st =>
    if bool_decide (p = blocked)
    then (inl (lit "EPERM: operation not permitted"), st)
    else
      (inr tt,
       {| oembed := oembed st; search := search st; tool := tool st;
          dir := (fun files =>
                    List.filter (fun f => negb (ends_with p (lit "/" ++ fst f)))
                                files) <$> dir st |});
  rmSync := fun p st =>
    (inr tt, {| oembed := oembed st; search := search st; tool := tool st;
                dir := None |})
|}.

End Scenario.

(** * Properties *)

(** ** The exact filter *)

Section ExactFilter.
Import Matcher.

Lemma regex_class_false (c : code_unit) :
  regex_class c = false -> (c =? 92) = false /\ (c =? 46) = false.
Proof.
  unfold regex_class. intros H.
  repeat (apply Bool.orb_false_elim in H; destruct H as [H ?]).
  by split.
Qed.

Lemma spec_class_split (c : code_unit) :
  spec_class c = regex_class c || (c =? 125).
Proof. reflexivity. Qed.

(** After the replacement no character of the class stands unescaped. *)
Lemma unescaped_escape_regex (s : jsstring) :
  unescaped regex_class (escape_regex s) = [].
Proof.
  induction s as [|c s IH]; [done|].
  simpl. destruct (regex_class c) eqn:Hc.
  - simpl. exact IH.
  - destruct (regex_class_false c Hc) as [H92 _].
    simpl. by rewrite H92, Hc.
Qed.

(** Read with the set of the specification, the characters left unescaped
    are the closing braces of the title, all of them. *)
Lemma unescaped_spec_escape_regex (s : jsstring) :
  unescaped spec_class (escape_regex s) = List.filter (fun c => c =? 125) s.
Proof.
  induction s as [|c s IH]; [done|].
  simpl. destruct (regex_class c) eqn:Hc.
  - simpl. rewrite IH.
    destruct (c =? 125) eqn:H125; [|done].
    apply N.eqb_eq in H125. subst c. discriminate Hc.
  - destruct (regex_class_false c Hc) as [H92 _].
    simpl. rewrite H92, spec_class_split, Hc. simpl.
    destruct (c =? 125); by rewrite IH.
Qed.

(** The escaped text reads as the literals of the text. *)
Lemma tokens_escape_regex (s rest : jsstring) :
  tokens regex_class (escape_regex s ++ rest)
  = (fun ts => map TLit s ++ ts) <$> tokens regex_class rest.
Proof.
  induction s as [|c s IH].
  - simpl. by destruct (tokens regex_class rest).
  - simpl. destruct (regex_class c) eqn:Hc.
    + simpl. rewrite Hc, IH. by destruct (tokens regex_class rest).
    + destruct (regex_class_false c Hc) as [H92 H46].
      simpl. rewrite H92, H46, Hc, IH.
      by destruct (tokens regex_class rest).
Qed.

Lemma line_free_app (s1 s2 : jsstring) :
  line_free (s1 ++ s2) = line_free s1 && line_free s2.
Proof. apply forallb_app. Qed.

(** A gap takes a run without line terminator, and nothing else. *)
Lemma tmatch_gap (ts : list tok) (s : jsstring) :
  tmatch (TGap :: ts) s = true <->
  exists pre post : jsstring,
    s = pre ++ post /\ line_free pre = true /\ tmatch ts post = true.
Proof.
  induction s as [|c s IH].
  - simpl. rewrite Bool.orb_false_r. split.
    + intros H. by exists [], [].
    + intros (pre & post & Heq & _ & H).
      symmetry in Heq. apply app_eq_nil in Heq as [-> ->]. exact H.
  - change (tmatch (TGap :: ts) (c :: s))
      with (tmatch ts (c :: s)
            || negb (is_line_terminator c) && tmatch (TGap :: ts) s).
    rewrite Bool.orb_true_iff, Bool.andb_true_iff, IH. split.
    + intros [H | (Hc & pre & post & -> & Hpre & H)].
      * by exists [], (c :: s).
      * exists (c :: pre), post. split; [done|]. split; [|done].
        simpl. by rewrite Hc, Hpre.
    + intros (pre & post & Heq & Hpre & H). destruct pre as [|d pre].
      * left. simpl in Heq. by rewrite Heq.
      * right. injection Heq as -> ->. simpl in Hpre.
        apply Bool.andb_true_iff in Hpre as [Hc Hpre].
        split; [done|]. by exists pre, post.
Qed.

Lemma tmatch_lits (f : jsstring) (ts : list tok) (s : jsstring) :
  tmatch (map TLit f ++ ts) s = true <->
  exists post : jsstring, s = f ++ post /\ tmatch ts post = true.
Proof.
  revert s. induction f as [|c f IH]; intros s.
  - simpl. split; [intros H; by exists s | by intros (post & -> & H)].
  - destruct s as [|d s]; simpl.
    + split; [done | by intros (post & ? & _)].
    + rewrite Bool.andb_true_iff, N.eqb_eq, IH. split.
      * intros [-> (post & -> & H)]. by exists post.
      * intros (post & Heq & H). injection Heq as -> ->. split; [done|].
        by exists post.
Qed.

(** The literals of a title match that title and nothing else. *)
Lemma tmatch_literal (title s : jsstring) :
  tmatch (map TLit title) s = true <-> s = title.
Proof.
  rewrite <- (app_nil_r (map TLit title)), tmatch_lits. split.
  - intros (post & -> & H). destruct post; [by rewrite app_nil_r | done].
  - intros ->. exists []. by rewrite app_nil_r.
Qed.

End ExactFilter.

Section ExactFilterClaims.
Import Matcher.

(** The class of the code is the thirteen characters it lists. *)
Lemma regex_class_chars (c : code_unit) :
  regex_class c = true <-> In c (lit "\[].*^$()+?{|").
Proof.
  unfold regex_class.
  set (l := lit _). vm_compute in l. subst l. simpl.
  rewrite !Bool.orb_true_iff, !N.eqb_eq. intuition congruence.
Qed.

(** The set of the specification has the closing brace as well. *)
Lemma spec_class_chars (c : code_unit) :
  spec_class c = true <-> In c (lit "\[].*^$()+?{}|").
Proof.
  unfold spec_class, regex_class.
  set (l := lit _). vm_compute in l. subst l. simpl.
  rewrite !Bool.orb_true_iff, !N.eqb_eq. intuition congruence.
Qed.

(** C2, as stated, fails: the closing brace belongs to the set of the
    specification, and the exact filter of the title [a}b] is [a}b], where
    the brace stands unescaped. *)
Lemma episodeFilter_leaves_closing_brace :
  spec_class 125 = true /\
  episodeFilter (lit "a}b") = lit "a}b" /\
  unescaped spec_class (episodeFilter (lit "a}b")) = [125] /\
  ~ (forall title : jsstring,
       unescaped spec_class (episodeFilter title) = []).
Proof.
  split; [reflexivity|]. split; [reflexivity|]. split; [reflexivity|].
  intros H. specialize (H (lit "a}b")). discriminate H.
Qed.

(** C2, amended: for every title the exact filter puts a backslash before
    every occurrence of the thirteen characters [[ ] . * ^ $ ( ) + ? { | \]
    and copies every other code unit, so that none of the thirteen is left
    unescaped; of the set of the specification the closing brace, and only
    it, stays unescaped wherever the title has one; the filter reads as the
    literals of the title, which match that exact title and no other
    string. *)
Theorem episodeFilter_escapes_class (title : jsstring) :
  unescaped regex_class (episodeFilter title) = [] /\
  unescaped spec_class (episodeFilter title)
    = List.filter (fun c => c =? 125) title /\
  tokens regex_class (episodeFilter title) = Some (map TLit title) /\
  (forall s : jsstring, tmatch (map TLit title) s = true <-> s = title).
Proof.
  unfold episodeFilter. split; [apply unescaped_escape_regex|].
  split; [apply unescaped_spec_escape_regex|]. split.
  - rewrite <- (app_nil_r (escape_regex title)), tokens_escape_regex.
    simpl. by rewrite app_nil_r.
  - intros s. apply tmatch_literal.
Qed.

End ExactFilterClaims.

(** ** The fuzzy filter *)

Section FuzzyFilter.
Import Matcher.

(** C3, as stated, fails: splitting "The A.I. Revolution: Part One" yields
    neither the fragment "A" nor the fragment "I"; the full stop is no
    separator, "A.I." is one fragment of four code units, and it is kept. *)
Lemma ai_title_has_no_short_fragment :
  ~ In (lit "A") (split_title (lit "The A.I. Revolution: Part One")) /\
  ~ In (lit "I") (split_title (lit "The A.I. Revolution: Part One")) /\
  In (lit "A.I.") (split_title (lit "The A.I. Revolution: Part One")) /\
  In (lit "A\.I\.") (words (lit "The A.I. Revolution: Part One")).
Proof.
  repeat split.
  - vm_compute. intuition discriminate.
  - vm_compute. intuition discriminate.
  - vm_compute. tauto.
  - vm_compute. tauto.
Qed.

(** C3, amended: the fragments of "The A.I. Revolution: Part One" are
    "The", "A.I.", "Revolution", "Part" and "One"; none has two code units
    or fewer, so none is excluded; with the full stops of "A.I." escaped
    they appear in the built pattern in their original order. *)
Theorem ai_title_fuzzy_filter :
  split_title (lit "The A.I. Revolution: Part One")
    = [lit "The"; lit "A.I."; lit "Revolution"; lit "Part"; lit "One"] /\
  filter (fun word : jsstring => (2 < length word)%nat)
         (split_title (lit "The A.I. Revolution: Part One"))
    = split_title (lit "The A.I. Revolution: Part One") /\
  words (lit "The A.I. Revolution: Part One")
    = [lit "The"; lit "A\.I\."; lit "Revolution"; lit "Part"; lit "One"] /\
  fuzzyFilter (lit "The A.I. Revolution: Part One")
    = Some (lit ".*The.*A\.I\..*Revolution.*Part.*One.*").
Proof. repeat split; reflexivity. Qed.

(** [split_go] cuts on the runs of separators; the second statement is
    the loop inside a run that started after the fragment [f]. *)
Lemma split_go_on_runs (s : jsstring) :
  (forall cur : jsstring,
     sep_free cur -> on_runs (rev cur ++ s) (split_go cur false s)) /\
  (forall f r : jsstring,
     sep_free f -> sep_run r ->
     on_runs (f ++ r ++ s) (f :: split_go [] true s)).
Proof.
  induction s as [|c s [IHP IHQ]]; split.
  - intros cur Hcur. simpl. rewrite app_nil_r.
    apply on_runs_last. by apply Forall_rev.
  - intros f r Hf Hr. simpl.
    apply on_runs_cons; [done | done | done |].
    apply on_runs_last. constructor.
  - intros cur Hcur. simpl. destruct (is_sep c) eqn:Hc.
    + apply (IHQ (rev cur) [c]).
      * by apply Forall_rev.
      * split; [done|]. by constructor.
    + specialize (IHP (c :: cur)). simpl in IHP.
      rewrite <- app_assoc in IHP. apply IHP. by constructor.
  - intros f r Hf [Hne Hr]. simpl. destruct (is_sep c) eqn:Hc.
    + specialize (IHQ f (r ++ [c]) Hf).
      rewrite <- (app_assoc r [c] s) in IHQ. apply IHQ. split.
      * by destruct r.
      * apply Forall_app. split; [done|]. by constructor.
    + apply on_runs_cons; [done | done | done |].
      apply (IHP [c]). by constructor.
Qed.

Lemma split_title_on_runs (title : jsstring) :
  on_runs title (split_title title).
Proof.
  destruct (split_go_on_runs title) as [H _].
  apply (H []). constructor.
Qed.

Lemma tokens_gap (meta : code_unit -> bool) (rest : jsstring) :
  tokens meta (lit ".*" ++ rest) = cons TGap <$> tokens meta rest.
Proof. reflexivity. Qed.

Lemma tokens_join (frags : list jsstring) (rest : jsstring) :
  tokens regex_class (join (lit ".*") (map escape_regex frags) ++ rest)
  = (fun ts => joined_tokens frags ++ ts) <$> tokens regex_class rest.
Proof.
  induction frags as [|f frags IH].
  - simpl. by destruct (tokens regex_class rest).
  - destruct frags as [|g frags].
    + simpl. apply tokens_escape_regex.
    + change (join (lit ".*") (map escape_regex (f :: g :: frags)))
        with (escape_regex f ++ lit ".*"
              ++ join (lit ".*") (map escape_regex (g :: frags))).
      rewrite <- !app_assoc, tokens_escape_regex, tokens_gap, IH.
      destruct (tokens regex_class rest); [|done].
      simpl. by rewrite <- app_assoc.
Qed.

Lemma tokens_partialFilter (frags : list jsstring) :
  tokens regex_class (partialFilter (map escape_regex frags))
  = Some (fuzzy_tokens frags).
Proof.
  unfold partialFilter. by rewrite tokens_gap, tokens_join.
Qed.

Lemma tmatch_gap_end (s : jsstring) :
  tmatch [TGap] s = true <-> line_free s = true.
Proof.
  rewrite tmatch_gap. split.
  - intros (pre & post & -> & Hpre & H).
    destruct post; [by rewrite app_nil_r | done].
  - intros H. exists s, []. by rewrite app_nil_r.
Qed.

(** Against a whole string the tokens of a fuzzy filter match the strings
    made of the fragments in order with runs free of line terminators
    around them, and no other string. *)
Lemma fuzzy_tokens_gapped (frags : list jsstring) (s : jsstring) :
  tmatch (fuzzy_tokens frags) s = true <-> gapped frags s.
Proof.
  revert s. induction frags as [|f frags IH]; intros s.
  - unfold fuzzy_tokens. simpl joined_tokens. simpl app.
    rewrite tmatch_gap. simpl gapped. split.
    + intros (pre & post & -> & Hpre & H). apply tmatch_gap_end in H.
      by rewrite line_free_app, Hpre, H.
    + intros H. exists [], s. split; [done|]. split; [done|].
      by apply tmatch_gap_end.
  - assert (Hstep : forall post : jsstring,
               tmatch (joined_tokens (f :: frags) ++ [TGap]) post = true <->
               exists post' : jsstring,
                 post = f ++ post' /\ gapped frags post').
    { intros post. destruct frags as [|g frags].
      - simpl joined_tokens. rewrite tmatch_lits. split.
        + intros (post' & -> & H). exists post'.
          split; [done|]. by apply tmatch_gap_end.
        + intros (post' & -> & H). exists post'.
          split; [done|]. by apply tmatch_gap_end.
      - change (joined_tokens (f :: g :: frags) ++ [TGap])
          with ((map TLit f ++ TGap :: joined_tokens (g :: frags)) ++ [TGap]).
        rewrite <- app_assoc. rewrite tmatch_lits.
        split; intros (post' & -> & H); exists post'; (split; [done|]);
          by apply (IH post'). }
    unfold fuzzy_tokens. rewrite tmatch_gap.
    change (gapped (f :: frags) s)
      with (exists gap post : jsstring,
              s = gap ++ f ++ post /\ line_free gap = true
              /\ gapped frags post).
    split.
    + intros (pre & post & -> & Hpre & H).
      apply Hstep in H as (post' & -> & H). by exists pre, post'.
    + intros (pre & post' & -> & Hpre & H). exists pre, (f ++ post').
      split; [done|]. split; [done|]. apply Hstep. by exists post'.
Qed.

Lemma prefixes_spec (s m : jsstring) :
  In m (prefixes s) <-> exists post : jsstring, s = m ++ post.
Proof.
  revert m. induction s as [|c s IH]; intros m.
  - simpl. split.
    + intros [<- | []]. by exists [].
    + intros (post & Heq). symmetry in Heq.
      apply app_eq_nil in Heq as [-> _]. by left.
  - change (prefixes (c :: s)) with ([] :: map (cons c) (prefixes s)).
    split.
    + intros [<- | Hin]; [by exists (c :: s)|].
      apply in_map_iff in Hin as (m' & <- & Hin).
      apply IH in Hin as (post & ->). by exists post.
    + intros (post & Heq). destruct m as [|d m]; [by left|].
      right. injection Heq as <- ->. apply in_map_iff.
      exists m. split; [done|]. apply IH. by exists post.
Qed.

Lemma segments_spec (s m : jsstring) :
  In m (segments s) <-> exists pre post : jsstring, s = pre ++ m ++ post.
Proof.
  revert m. induction s as [|c s IH]; intros m.
  - simpl. split.
    + intros [<- | []]. by exists [], [].
    + intros (pre & post & Heq). symmetry in Heq.
      apply app_eq_nil in Heq as [_ Heq].
      apply app_eq_nil in Heq as [-> _]. by left.
  - change (segments (c :: s)) with (prefixes (c :: s) ++ segments s).
    rewrite in_app_iff, prefixes_spec, IH. split.
    + intros [(post & ->) | (pre & post & ->)].
      * by exists [], post.
      * by exists (c :: pre), post.
    + intros (pre & post & Heq). destruct pre as [|d pre].
      * left. by exists post.
      * right. injection Heq as <- ->. by exists pre, post.
Qed.

(** [tsearch] looks for a part of the string that the tokens match. *)
Lemma tsearch_spec (ts : list tok) (s : jsstring) :
  tsearch ts s = true <->
  exists pre m post : jsstring, s = pre ++ m ++ post /\ tmatch ts m = true.
Proof.
  unfold tsearch. rewrite existsb_exists. split.
  - intros (m & Hin & H). apply segments_spec in Hin as (pre & post & ->).
    by exists pre, m, post.
  - intros (pre & m & post & -> & H). exists m. split; [|done].
    apply segments_spec. by exists pre, post.
Qed.

Lemma in_order_app_l (frags : list jsstring) (pre s : jsstring) :
  in_order frags s -> in_order frags (pre ++ s).
Proof.
  destruct frags as [|f frags]; [done|].
  intros (pre' & post & -> & H). exists (pre ++ pre'), post.
  by rewrite <- app_assoc.
Qed.

Lemma in_order_app_r (frags : list jsstring) (s post : jsstring) :
  in_order frags s -> in_order frags (s ++ post).
Proof.
  revert s. induction frags as [|f frags IH]; intros s; [done|].
  intros (pre & post' & -> & H). exists pre, (post' ++ post).
  split; [by rewrite <- !app_assoc|]. by apply IH.
Qed.

(** What the pattern matches contains the fragments in order. *)
Lemma gapped_in_order (frags : list jsstring) (s : jsstring) :
  gapped frags s -> in_order frags s.
Proof.
  revert s. induction frags as [|f frags IH]; intros s; [done|].
  intros (gap & post & -> & _ & H). exists gap, post.
  split; [done|]. by apply IH.
Qed.

(** A string without line terminator that contains the fragments in order
    is matched. *)
Lemma in_order_gapped (frags : list jsstring) (s : jsstring) :
  line_free s = true -> in_order frags s -> gapped frags s.
Proof.
  revert s. induction frags as [|f frags IH]; intros s Hs; [done|].
  intros (pre & post & -> & H).
  rewrite !line_free_app, !Bool.andb_true_iff in Hs.
  destruct Hs as (Hpre & _ & Hpost).
  exists pre, post. split; [done|]. split; [done|]. by apply IH.
Qed.

(** The two readings of a fuzzy filter, against the strings that contain
    the fragments in order. *)
Lemma fuzzy_tokens_matches (frags : list jsstring) :
  (forall s : jsstring, tmatch (fuzzy_tokens frags) s = true <-> gapped frags s)
  /\
  (forall s : jsstring,
     tsearch (fuzzy_tokens frags) s = true <->
     exists pre m post : jsstring, s = pre ++ m ++ post /\ gapped frags m) /\
  (forall s : jsstring,
     tsearch (fuzzy_tokens frags) s = true -> in_order frags s) /\
  (forall s : jsstring,
     line_free s = true -> in_order frags s ->
     tmatch (fuzzy_tokens frags) s = true /\
     tsearch (fuzzy_tokens frags) s = true).
Proof.
  assert (Hsearch : forall s : jsstring,
            tsearch (fuzzy_tokens frags) s = true <->
            exists pre m post : jsstring,
              s = pre ++ m ++ post /\ gapped frags m).
  { intros s. rewrite tsearch_spec.
    split; intros (pre & m & post & -> & H); exists pre, m, post;
      (split; [done|]); by apply fuzzy_tokens_gapped. }
  split; [apply fuzzy_tokens_gapped|]. split; [exact Hsearch|]. split.
  - intros s Hs. apply Hsearch in Hs as (pre & m & post & -> & H).
    by apply in_order_app_l, in_order_app_r, gapped_in_order.
  - intros s Hs H. apply (in_order_gapped frags s Hs) in H. split.
    + by apply fuzzy_tokens_gapped.
    + apply Hsearch. exists [], s, []. by rewrite app_nil_r.
Qed.

End FuzzyFilter.

(** ** The feed index search *)

Section SearchLoop.
Import Search.

Lemma falsy_only_empty : falsy_only ∅.
Proof. intros v Hv. set_solver. Qed.

Lemma falsy_only_add (v : jsval) (seen : gset jsval) :
  truthy v = false -> falsy_only seen -> falsy_only ({[v]} ∪ seen).
Proof.
  intros Hv Hseen u Hu. apply elem_of_union in Hu as [Hu | Hu].
  - apply elem_of_singleton in Hu. by subst u.
  - by apply Hseen.
Qed.

(** The loop returns at the first result that bears a feedUrl. *)
Lemma first_match_find (seen : gset jsval) (results : list itunes_result) :
  falsy_only seen ->
  first_match seen results = to_found <$> List.find has_feedUrl results.
Proof.
  revert seen. induction results as [|r results IH]; intros seen Hseen.
  - reflexivity.
  - simpl. unfold has_feedUrl at 1.
    destruct (truthy (r_feedUrl r)) eqn:Hr.
    + rewrite bool_decide_eq_false_2; [reflexivity|].
      intros Hin. apply Hseen in Hin. congruence.
    + simpl. apply IH. by apply falsy_only_add.
Qed.

Lemma search_results_find (results : list itunes_result) :
  search_results (Some results) = to_found <$> List.find has_feedUrl results.
Proof.
  unfold search_results. simpl. destruct results as [|r results].
  - reflexivity.
  - apply first_match_find, falsy_only_empty.
Qed.

(** The deduplication of the specification never keeps a feedUrl that is
    in [seen], nor one twice. *)
Lemma dedup_by_feedUrl_fresh (seen : gset jsval)
    (results : list itunes_result) (c : found) :
  In c (dedup_by_feedUrl seen results) -> feedUrl c ∉ seen.
Proof.
  revert seen. induction results as [|r results IH]; intros seen Hin.
  - destruct Hin.
  - simpl in Hin.
    destruct (truthy (r_feedUrl r) && negb (bool_decide (r_feedUrl r ∈ seen)))
      eqn:Hr.
    + destruct Hin as [<- | Hin].
      * apply andb_prop in Hr as [_ Hr]. apply negb_true_iff in Hr.
        by apply bool_decide_eq_false_1 in Hr.
      * apply IH in Hin. set_solver.
    + by apply IH.
Qed.

Lemma dedup_by_feedUrl_NoDup (seen : gset jsval)
    (results : list itunes_result) :
  NoDup (map feedUrl (dedup_by_feedUrl seen results)).
Proof.
  revert seen. induction results as [|r results IH]; intros seen.
  - constructor.
  - simpl.
    destruct (truthy (r_feedUrl r) && negb (bool_decide (r_feedUrl r ∈ seen))).
    + simpl. constructor; [|apply IH].
      intros Hin. apply list_elem_of_In, in_map_iff in Hin as (c & Hc & Hin).
      apply dedup_by_feedUrl_fresh in Hin. set_solver.
    + apply IH.
Qed.

(** The first entry the deduplication keeps is the first result that bears
    a feedUrl, with its own display name. *)
Lemma dedup_by_feedUrl_head (seen : gset jsval)
    (results : list itunes_result) :
  falsy_only seen ->
  head (dedup_by_feedUrl seen results)
  = to_found <$> List.find has_feedUrl results.
Proof.
  revert seen. induction results as [|r results IH]; intros seen Hseen.
  - reflexivity.
  - simpl. unfold has_feedUrl at 1.
    destruct (truthy (r_feedUrl r)) eqn:Hr.
    + rewrite bool_decide_eq_false_2; [reflexivity|].
      intros Hin. apply Hseen in Hin. congruence.
    + simpl. by apply IH.
Qed.

Lemma take_1_head {A : Type} (l : list A) : take 1 l = option_list (head l).
Proof. by destruct l. Qed.

(** C1, as stated, fails: of two results with different feedUrls the
    deduplication keeps both, the search the first only; the first result
    bearing the second feedUrl is not kept. *)
Lemma search_drops_second_feed :
  dedup_by_feedUrl ∅ [Fixture.result_x1; Fixture.result_y]
    = [to_found Fixture.result_x1; to_found Fixture.result_y] /\
  candidates [Fixture.result_x1; Fixture.result_y]
    = [to_found Fixture.result_x1] /\
  ~ (forall results : list itunes_result,
       candidates results = dedup_by_feedUrl ∅ results).
Proof.
  assert (H1 : dedup_by_feedUrl ∅ [Fixture.result_x1; Fixture.result_y]
               = [to_found Fixture.result_x1; to_found Fixture.result_y])
    by (vm_compute; reflexivity).
  assert (H2 : candidates [Fixture.result_x1; Fixture.result_y]
               = [to_found Fixture.result_x1])
    by (vm_compute; reflexivity).
  split; [exact H1|]. split; [exact H2|].
  intros H. specialize (H [Fixture.result_x1; Fixture.result_y]).
  rewrite H1, H2 in H. discriminate H.
Qed.

(** C1, amended: for every feed-index response list the search keeps the
    first entry of the deduplication by feedUrl and nothing else: the
    candidate set has at most one entry, hence no two entries with equal
    feedUrl; its entry is the first result in response order that bears a
    feedUrl, with the display name of that very result, which no later
    result, duplicate or not, replaces.  The deduplicated list itself has
    no two entries with equal feedUrl. *)
Theorem search_keeps_first_seen (results : list itunes_result) :
  candidates results = take 1 (dedup_by_feedUrl ∅ results) /\
  candidates results
    = option_list (to_found <$> List.find has_feedUrl results) /\
  (length (candidates results) <= 1)%nat /\
  NoDup (map feedUrl (candidates results)) /\
  NoDup (map feedUrl (dedup_by_feedUrl ∅ results)).
Proof.
  assert (Hfind : candidates results
                  = option_list (to_found <$> List.find has_feedUrl results)).
  { unfold candidates. by rewrite search_results_find. }
  assert (Htake : candidates results = take 1 (dedup_by_feedUrl ∅ results)).
  { rewrite Hfind, take_1_head, dedup_by_feedUrl_head;
      [done | apply falsy_only_empty]. }
  split; [exact Htake|]. split; [exact Hfind|]. split.
  - rewrite Hfind. destruct (List.find has_feedUrl results); simpl; lia.
  - split; [|apply dedup_by_feedUrl_NoDup].
    rewrite Hfind. destruct (List.find has_feedUrl results); simpl.
    + apply NoDup_singleton.
    + constructor.
Qed.

(** C10: the search returns at most one candidate, the first result in
    response order that bears a non-empty feedUrl, results without one
    being skipped; its display name is the collectionName of that result,
    else its trackName, else "Unknown" (so when both are absent); when no
    result bears a feedUrl, or the list is absent or empty, it returns
    null. *)
Theorem search_returns_first_with_feedUrl (results : list itunes_result) :
  search_results (Some results)
    = to_found <$> List.find has_feedUrl results /\
  search_results None = None /\
  (length (candidates results) <= 1)%nat /\
  (forall r : itunes_result,
     collectionName (to_found r)
     = if truthy (r_collectionName r) then r_collectionName r
       else if truthy (r_trackName r) then r_trackName r
       else JStr (lit "Unknown")) /\
  (forall url : jsval,
     display_name {| r_feedUrl := url; r_collectionName := JUndefined;
                     r_trackName := JUndefined |} = JStr (lit "Unknown")) /\
  (forallb (fun r => negb (has_feedUrl r)) results
   = bool_decide (search_results (Some results) = None)).
Proof.
  split; [apply search_results_find|]. split; [reflexivity|]. split.
  - unfold candidates. rewrite search_results_find.
    destruct (List.find has_feedUrl results); simpl; lia.
  - split.
    + intros r. simpl. unfold display_name, js_or.
      destruct (truthy (r_collectionName r)) eqn:Hc.
      * by rewrite Hc.
      * reflexivity.
    + split; [reflexivity|].
      rewrite search_results_find.
      induction results as [|r results IH]; [reflexivity|].
      simpl. destruct (has_feedUrl r); simpl; [reflexivity | exact IH].
Qed.

End SearchLoop.

(** ** One download attempt *)

Section Download.
Context `{RT : Runtime}.

Lemma sort_insert_In (a x : file_stats) (l : list file_stats) :
  In x (sort_insert a l) <-> x = a \/ In x l.
Proof.
  induction l as [|b l IH]; simpl.
  - intuition.
  - destruct (comparator a b <=? 0)%Z; simpl; [intuition|].
    rewrite IH. intuition.
Qed.

Lemma sort_by_mtime_In (x : file_stats) (l : list file_stats) :
  In x (sort_by_mtime l) <-> In x l.
Proof.
  induction l as [|a l IH]; simpl; [tauto|].
  rewrite sort_insert_In, IH. intuition.
Qed.

Lemma stat_file_run (outputDir f : jsstring) (w : world) :
  stat_file outputDir f w
  = match statSync_mtime (path_join outputDir f) (outside w) with
    | inl message => (inl message, w)
    | inr t =>
        (inr {| name := f; path := path_join outputDir f; mtime := t |}, w)
    end.
Proof.
  unfold stat_file, bind, outside_read, throws, throw, ret.
  by destruct (statSync_mtime (path_join outputDir f) (outside w)).
Qed.

(** Reading the modification times changes nothing; it fails, or gives
    the statistics of the files in their order. *)
Lemma map_M_stat_file (outputDir : jsstring) (files : list jsstring)
    (w : world) :
  (exists message : jsstring,
     map_M (stat_file outputDir) files w = (inl message, w)) \/
  (exists stats : list file_stats,
     map_M (stat_file outputDir) files w = (inr stats, w) /\
     map name stats = files /\
     Forall (fun st => path st = path_join outputDir (name st)) stats).
Proof.
  induction files as [|f files IH].
  - right. exists []. by repeat split.
  - simpl. unfold bind. rewrite stat_file_run.
    destruct (statSync_mtime (path_join outputDir f) (outside w))
      as [message | t].
    + left. by exists message.
    + destruct IH as [(message & ->) | (stats & -> & Hstats & Hpaths)].
      * left. by exists message.
      * right. eexists. split; [reflexivity|]. simpl. rewrite Hstats.
        split; [done|]. by constructor.
Qed.

Lemma filter_is_audio_length (listing : list jsstring) :
  (length (List.filter is_audio listing) =? 0)%nat
  = negb (existsb is_audio listing).
Proof.
  induction listing as [|f listing IH]; [reflexivity|].
  simpl. by destruct (is_audio f).
Qed.

Lemma find_downloaded_unfold (outputDir : jsstring) (w : world) :
  find_downloaded outputDir w
  = match readdirSync outputDir (outside w) with
    | inl message => (inl message, w)
    | inr listing =>
        if existsb is_audio listing then
          match map_M (stat_file outputDir) (List.filter is_audio listing) w
          with
          | (inl message, w') => (inl message, w')
          | (inr stats, w') =>
              match sort_by_mtime stats with
              | first :: _ => (inr (Downloaded (path first) (name first)), w')
              | [] =>
                  (inl (lit "Cannot read properties of undefined (reading 'path')"),
                   w')
              end
          end
        else (inr (NotDownloaded (lit "No audio files downloaded")), w)
    end.
Proof.
  unfold find_downloaded, bind, outside_read, throws, throw, ret.
  destruct (readdirSync outputDir (outside w)) as [message | listing];
    [reflexivity|].
  rewrite filter_is_audio_length.
  destruct (existsb is_audio listing); simpl; [|reflexivity].
  destruct (map_M (stat_file outputDir) (List.filter is_audio listing) w)
    as [[message | stats] w']; [reflexivity|].
  by destruct (sort_by_mtime stats).
Qed.

(** The search for the downloaded file changes nothing; with no audio file
    in the directory it gives the failure "No audio files downloaded", with
    one it gives an audio file of the directory, unless a read fails. *)
Lemma find_downloaded_run (outputDir : jsstring) (w : world) :
  match readdirSync outputDir (outside w) with
  | inl message => find_downloaded outputDir w = (inl message, w)
  | inr listing =>
      if existsb is_audio listing then
        (exists message : jsstring,
           find_downloaded outputDir w = (inl message, w)) \/
        (exists f : jsstring,
           In f listing /\ is_audio f = true /\
           find_downloaded outputDir w
           = (inr (Downloaded (path_join outputDir f) f), w))
      else
        find_downloaded outputDir w
        = (inr (NotDownloaded (lit "No audio files downloaded")), w)
  end.
Proof.
  rewrite find_downloaded_unfold.
  destruct (readdirSync outputDir (outside w)) as [message | listing];
    [reflexivity|].
  destruct (existsb is_audio listing); [|reflexivity].
  destruct (map_M_stat_file outputDir (List.filter is_audio listing) w)
    as [(message & ->) | (stats & -> & Hstats & Hpaths)].
  - left. by exists message.
  - destruct (sort_by_mtime stats) as [|first sorted] eqn:Hsort.
    + left. by eexists.
    + right.
      assert (Hin : In first stats).
      { apply sort_by_mtime_In. rewrite Hsort. by left. }
      assert (Hname : In (name first) (List.filter is_audio listing)).
      { rewrite <- Hstats. by apply in_map. }
      apply filter_In in Hname as [Hl Ha].
      exists (name first). split; [done|]. split; [done|].
      rewrite List.Forall_forall in Hpaths. by rewrite (Hpaths first Hin).
Qed.

End Download.

Section DownloadAttempt.
Context `{RT : Runtime}.

Ltac step := cbv beta iota; cbn [outside console trace negb fst snd].

Lemma run_tool_run (rssUrl : jsval) (outputDir : jsstring)
    (episodeFilter : jsval) (w : world) :
  exists r w' outcome,
    run_tool rssUrl outputDir episodeFilter w = (r, w') /\
    trace w' = trace w
               ++ [Executed (build_command rssUrl outputDir episodeFilter)
                            outcome] /\
    match outcome with
    | inl message => r = inl message
    | inr _ =>
        match readdirSync outputDir (outside w') with
        | inl message => r = inl message
        | inr listing =>
            if existsb is_audio listing then
              (exists message : jsstring, r = inl message) \/
              (exists f : jsstring,
                 In f listing /\ is_audio f = true /\
                 r = inr (Downloaded (path_join outputDir f) f))
            else r = inr (NotDownloaded (lit "No audio files downloaded"))
        end
    end.
Proof.
  unfold run_tool, bind, outside_op, noting, console_log, ret.
  destruct w as [e c t]. step.
  destruct (execAsync (build_command rssUrl outputDir episodeFilter) _ _ e)
    as [[message | out] e2]; step.
  - by eexists _, _, (inl message).
  - assert (Hfd : forall w1 : world,
              exists r,
                find_downloaded outputDir w1 = (r, w1) /\
                match readdirSync outputDir (outside w1) with
                | inl message => r = inl message
                | inr listing =>
                    if existsb is_audio listing then
                      (exists message : jsstring, r = inl message) \/
                      (exists f : jsstring,
                         In f listing /\ is_audio f = true /\
                         r = inr (Downloaded (path_join outputDir f) f))
                    else
                      r = inr (NotDownloaded (lit "No audio files downloaded"))
                end).
    { intros w1. pose proof (find_downloaded_run outputDir w1) as H.
      destruct (readdirSync outputDir (outside w1)) as [message | listing].
      - by eexists.
      - destruct (existsb is_audio listing).
        + destruct H as [(message & H) | (f & Hin & Ha & H)];
            eexists; (split; [exact H|]); eauto.
        + by eexists. }
    destruct (negb _ && negb _); step;
      match goal with
      | |- context [find_downloaded outputDir ?W] =>
          destruct (Hfd W) as (r & -> & Hr)
      end;
      eexists r, _, (inr out); (split; [reflexivity|]);
      (split; [reflexivity|]); exact Hr.
Qed.

(** A call of [downloadFromRss] returns an outcome, never throws, and
    leaves in the trace the run of the tool, if it came to it, and the
    attempt.  It succeeds only when the tool exited normally and the
    directory then holds an audio file; when the tool exited normally and
    the directory holds no audio file the outcome is the failure "No audio
    files downloaded". *)
Lemma downloadFromRss_run (rssUrl : jsval) (outputDir : jsstring)
    (episodeFilter : jsval) (w : world) :
  exists (res : download_result) (w' : world) (evs : list event),
    downloadFromRss rssUrl outputDir episodeFilter w = (inr res, w') /\
    trace w' = trace w ++ evs
               ++ [Attempted {| a_rssUrl := rssUrl; a_outputDir := outputDir;
                                a_episodeFilter := episodeFilter |} res] /\
    (evs = [] \/
     exists outcome,
       evs = [Executed (build_command rssUrl outputDir episodeFilter) outcome]) /\
    (success res = true ->
     exists out listing,
       evs = [Executed (build_command rssUrl outputDir episodeFilter) (inr out)] /\
       readdirSync outputDir (outside w') = inr listing /\
       existsb is_audio listing = true) /\
    (forall command out listing,
       evs = [Executed command (inr out)] ->
       readdirSync outputDir (outside w') = inr listing ->
       existsb is_audio listing = false ->
       res = NotDownloaded (lit "No audio files downloaded")).
Proof.
  assert (Hrest : forall w1 : world,
    exists (res : download_result) (w' : world) (evs : list event),
      returning
        (Attempted {| a_rssUrl := rssUrl; a_outputDir := outputDir;
                      a_episodeFilter := episodeFilter |})
        (try_catch (run_tool rssUrl outputDir episodeFilter)
           (fun message =>
              bind (console_error [lit "[SpotifyDownloader] Download error:";
                                   message])
                   (fun _ => ret (NotDownloaded message)))) w1
      = (inr res, w') /\
      trace w' = trace w1 ++ evs
                 ++ [Attempted {| a_rssUrl := rssUrl; a_outputDir := outputDir;
                                  a_episodeFilter := episodeFilter |} res] /\
      (evs = [] \/
       exists outcome,
         evs = [Executed (build_command rssUrl outputDir episodeFilter)
                         outcome]) /\
      (success res = true ->
       exists out listing,
         evs = [Executed (build_command rssUrl outputDir episodeFilter)
                         (inr out)] /\
         readdirSync outputDir (outside w') = inr listing /\
         existsb is_audio listing = true) /\
      (forall command out listing,
         evs = [Executed command (inr out)] ->
         readdirSync outputDir (outside w') = inr listing ->
         existsb is_audio listing = false ->
         res = NotDownloaded (lit "No audio files downloaded"))).
  { intros w1.
    unfold returning, try_catch, bind, console_error, note, ret.
    destruct (run_tool_run rssUrl outputDir episodeFilter w1)
      as (r & w' & outcome & -> & Ht & Hr).
    destruct outcome as [message | out].
    - subst r. eexists _, _, _. split; [reflexivity|]. step.
      rewrite Ht, <- app_assoc.
      split; [reflexivity|]. split; [right; by eexists|].
      split; [done|]. by intros ??? [=].
    - destruct (readdirSync outputDir (outside w')) as [message | listing]
        eqn:Hrd.
      + subst r. eexists _, _, _. split; [reflexivity|]. step.
        rewrite Ht, <- app_assoc.
        split; [reflexivity|]. split; [right; by eexists|]. split; [done|].
        intros ??? _ H. rewrite Hrd in H. discriminate H.
      + destruct (existsb is_audio listing) eqn:Hex.
        * destruct Hr as [(message & ->) | (f & Hin & Ha & ->)];
            eexists _, _, _; (split; [reflexivity|]); step;
            rewrite Ht, <- app_assoc;
            (split; [reflexivity|]); (split; [right; by eexists|]).
          -- split; [done|]. intros ??? _ H. rewrite Hrd in H.
             injection H as <-. congruence.
          -- split; [intros _; by exists out, listing|].
             intros ??? _ H. rewrite Hrd in H. injection H as <-. congruence.
        * subst r. eexists _, _, _. split; [reflexivity|]. step.
          rewrite Ht, <- app_assoc.
          split; [reflexivity|]. split; [right; by eexists|].
          split; [done|]. done. }
  unfold downloadFromRss, returning, try_catch, bind, outside_read,
    outside_op, console_error, note, ret in *.
  destruct w as [e c t]. step.
  destruct (existsSync outputDir e); step.
  - apply Hrest.
  - destruct (mkdirSync outputDir e) as [[message | []] e1]; step.
    + eexists _, _, []. split; [reflexivity|]. step.
      split; [reflexivity|]. split; [by left|]. split; [done|].
      by intros ??? [=].
    + apply (Hrest {| outside := e1; console := c; trace := t |}).
Qed.

End DownloadAttempt.

(** ** The stages of the pipeline *)

Section Stages.
Context `{RT : Runtime}.

Ltac step := cbv beta iota; cbn [outside console trace negb fst snd].

(** [getSpotifyInfo] never throws; it leaves its result in the trace, and
    classifies the reference by its URL. *)
Lemma getSpotifyInfo_run (spotifyUrl : jsstring) (w : world) :
  exists (info : option spotify_info) (w' : world),
    getSpotifyInfo spotifyUrl w = (inr info, w') /\
    trace w' = trace w ++ [Resolved info] /\
    match info with
    | Some info => info_type info = kind_of spotifyUrl
    | None => True
    end.
Proof.
  unfold getSpotifyInfo, returning, try_catch, bind, throws, throw,
    outside_op, console_error, note, ret.
  destruct w as [e c t]. step.
  destruct (encodeURIComponent spotifyUrl) as [message | encoded]; step.
  { by eexists _, _. }
  destruct (fetch _ e) as [[message | response] e1]; step.
  { by eexists _, _. }
  destruct (ok response); step.
  - destruct (json response) as [message | data]; step; by eexists _, _.
  - by eexists _, _.
Qed.

(** What [searchItunesRss] does, case by case. *)
Lemma searchItunesRss_unfold (query entity : jsstring) (w : world) :
  searchItunesRss query entity w
  = match encodeURIComponent query with
    | inl message =>
        (inr None,
         {| outside := outside w;
            console := console w
              ++ [ConsoleError [lit "Error searching iTunes:"; message]];
            trace := trace w ++ [Searched None] |})
    | inr encodedQuery =>
        match fetch (search_url encodedQuery entity) (outside w) with
        | (inl message, e) =>
            (inr None,
             {| outside := e;
                console := console w
                  ++ [ConsoleError [lit "Error searching iTunes:"; message]];
                trace := trace w ++ [Searched None] |})
        | (inr response, e) =>
            if ok response then
              match json response with
              | inl message =>
                  (inr None,
                   {| outside := e;
                      console := console w
                        ++ [ConsoleError [lit "Error searching iTunes:";
                                          message]];
                      trace := trace w ++ [Searched None] |})
              | inr data =>
                  (inr (Search.search_results (p_results data)),
                   {| outside := e;
                      console := console w;
                      trace := trace w
                        ++ [Searched (Search.search_results (p_results data))]
                   |})
              end
            else
              (inr None,
               {| outside := e;
                  console := console w
                    ++ [ConsoleError
                          [lit "iTunes search failed: "
                           ++ number_to_str (status response)]];
                  trace := trace w ++ [Searched None] |})
        end
    end.
Proof.
  unfold searchItunesRss, returning, try_catch, bind, throws, throw,
    outside_op, console_error, note, ret.
  destruct w as [e c t]. step.
  destruct (encodeURIComponent query) as [message | encoded]; step;
    [reflexivity|].
  destruct (fetch _ e) as [[message | response] e1]; step; [reflexivity|].
  destruct (ok response); step; [|reflexivity].
  by destruct (json response).
Qed.

Lemma search_results_truthy (results : option (list Search.itunes_result))
    (f : Search.found) :
  Search.search_results results = Some f ->
  truthy (Search.feedUrl f) = true.
Proof.
  destruct results as [results|]; [|done].
  rewrite search_results_find.
  destruct (List.find Search.has_feedUrl results) as [r|] eqn:Hfind; [|done].
  intros [= <-]. apply find_some in Hfind as [_ Hr]. exact Hr.
Qed.

(** [searchItunesRss] never throws; it leaves its result in the trace, and
    what it finds bears a feedUrl. *)
Lemma searchItunesRss_run (query entity : jsstring) (w : world) :
  exists (itunesResult : option Search.found) (w' : world),
    searchItunesRss query entity w = (inr itunesResult, w') /\
    trace w' = trace w ++ [Searched itunesResult] /\
    match itunesResult with
    | Some f => truthy (Search.feedUrl f) = true
    | None => True
    end.
Proof.
  rewrite searchItunesRss_unfold.
  destruct (encodeURIComponent query) as [message | encoded].
  { by eexists _, _. }
  destruct (fetch _ (outside w)) as [[message | response] e1].
  { by eexists _, _. }
  destruct (ok response); [|by eexists _, _].
  destruct (json response) as [message | data]; [by eexists _, _|].
  eexists _, _. split; [reflexivity|]. split; [reflexivity|].
  destruct (Search.search_results (p_results data)) as [f|] eqn:Hf; [|done].
  by apply search_results_truthy in Hf.
Qed.

End Stages.

Section Pipeline.
Context `{RT : Runtime}.

Ltac step := cbv beta iota; cbn [outside console trace negb fst snd].

Lemma tool_events_of (evs : list event) (command : jsstring) :
  evs = [] \/ (exists outcome, evs = [Executed command outcome]) ->
  tool_events evs.
Proof.
  intros [-> | (outcome & ->)]; [by left|]. right. by eexists _, _.
Qed.

(** Every run of the pipeline returns, and has one of the four shapes. *)
Lemma pipeline_run (spotifyUrl outputDir : jsstring) (w : world) :
  exists (res : pipeline_result) (w' : world) (evs : list event),
    downloadSpotifyEpisode spotifyUrl outputDir w = (inr res, w') /\
    trace w' = trace w ++ evs /\
    run_shape spotifyUrl outputDir evs res.
Proof.
  unfold downloadSpotifyEpisode, bind, console_log, ret. step.
  match goal with
  | |- context [getSpotifyInfo spotifyUrl ?W] =>
      destruct (getSpotifyInfo_run spotifyUrl W)
        as (info & w1 & -> & Ht1 & Hkind)
  end.
  cbn [trace] in Ht1. step.
  destruct info as [[title type]|]; step.
  2: { eexists _, _, _. split; [reflexivity|]. split; [exact Ht1|].
       by apply run_unresolved. }
  cbn [info_title info_type] in *.
  destruct (truthy title) eqn:Htitle; step.
  2: { eexists _, _, _. split; [reflexivity|]. split; [exact Ht1|].
       by apply run_unresolved. }
  match goal with
  | |- context [searchItunesRss ?q ?e ?W] =>
      destruct (searchItunesRss_run q e W)
        as (found & w2 & -> & Ht2 & Hfound)
  end.
  cbn [trace] in Ht2. rewrite Ht1 in Ht2. step.
  destruct found as [found|]; step.
  2: { eexists _, _, _. split; [reflexivity|].
       split; [by rewrite Ht2, <- app_assoc|].
       by apply (run_no_feed _ _ {| info_title := title; info_type := type |}). }
  rewrite Hfound. step.
  match goal with
  | |- context [downloadFromRss ?u ?d ?f ?W] =>
      destruct (downloadFromRss_run u d f W)
        as (r1 & w3 & tool1 & -> & Ht3 & Htool1 & _ & _)
  end.
  cbn [trace] in Ht3. rewrite Ht2 in Ht3. step.
  apply tool_events_of in Htool1.
  set (info := {| info_title := title; info_type := type |}) in *.
  assert (Hone : forall w3' : world,
            trace w3' = trace w3 ->
            success r1 = true \/ info_type info = show
              \/ Matcher.words (title_of info) = [] ->
            exists (res : pipeline_result) (w' : world) (evs : list event),
              (@inr jsstring pipeline_result
                 (final_result (to_str title) found r1), w3') = (inr res, w') /\
              trace w' = trace w ++ evs /\
              run_shape spotifyUrl outputDir evs res).
  { intros w3' Hw3' why. eexists _, _, _. split; [reflexivity|]. split.
    - rewrite Hw3', Ht3, <- !app_assoc. reflexivity.
    - by apply (run_one_attempt _ _ info found tool1 r1). }
  destruct (success r1) eqn:Hs1; step; [apply Hone; [done | by left]|].
  destruct type eqn:Htype; step; [|apply Hone; [done | right; by left]].
  destruct (0 <? length (Matcher.words (to_str title)))%nat eqn:Hwords; step.
  2: { apply Hone; [done|]. right. right. apply Nat.ltb_ge in Hwords.
       unfold title_of. cbn [info_title info].
       destruct (Matcher.words (to_str title)); [done | simpl in Hwords; lia]. }
  match goal with
  | |- context [downloadFromRss ?u ?d ?f ?W] =>
      destruct (downloadFromRss_run u d f W)
        as (r2 & w4 & tool2 & -> & Ht4 & Htool2 & _ & _)
  end.
  cbn [trace] in Ht4. rewrite Ht3 in Ht4. step.
  apply tool_events_of in Htool2.
  eexists _, _, _. split; [reflexivity|]. split.
  - rewrite Ht4, <- !app_assoc. reflexivity.
  - apply (run_two_attempts _ _ info found tool1 tool2 r1 r2); try done.
    unfold title_of. cbn [info_title info]. apply Nat.ltb_lt in Hwords.
    intros Hnil. rewrite Hnil in Hwords. simpl in Hwords. lia.
Qed.

End Pipeline.

(** ** The pipeline *)

Section PipelineClaims.
Context `{RT : Runtime}.

Lemma pipeline_shape (spotifyUrl outputDir : jsstring) (w : world)
    (evs : list event) :
  trace (snd (downloadSpotifyEpisode spotifyUrl outputDir w))
    = trace w ++ evs ->
  exists res : pipeline_result,
    fst (downloadSpotifyEpisode spotifyUrl outputDir w) = inr res /\
    run_shape spotifyUrl outputDir evs res.
Proof.
  destruct (pipeline_run spotifyUrl outputDir w)
    as (res & w' & evs0 & -> & Ht & Hshape).
  simpl. rewrite Ht. intros Heq. apply app_inv_head in Heq. subst evs0.
  by exists res.
Qed.

Lemma fuzzyFilter_None (title : jsstring) :
  Matcher.fuzzyFilter title = None <-> Matcher.words title = [].
Proof.
  unfold Matcher.fuzzyFilter. destruct (Matcher.words title); simpl; done.
Qed.

Lemma outcomes_app (l1 l2 : list event) :
  outcomes (l1 ++ l2) = outcomes l1 ++ outcomes l2.
Proof.
  induction l1 as [|ev l1 IH]; [done|].
  destruct ev; simpl; by rewrite ?IH.
Qed.

Lemma commands_app (l1 l2 : list event) :
  commands (l1 ++ l2) = commands l1 ++ commands l2.
Proof.
  induction l1 as [|ev l1 IH]; [done|].
  destruct ev; simpl; by rewrite ?IH.
Qed.

(** The events of the tool hold no attempt, no resolution, no search, and
    one command at most. *)
Lemma tool_events_facts (evs : list event) :
  tool_events evs ->
  outcomes evs = [] /\ (length (commands evs) <= 1)%nat /\
  (forall info, ~ In (Resolved info) evs) /\
  (forall found, ~ In (Searched found) evs).
Proof.
  intros [-> | (command & outcome & ->)]; simpl.
  - repeat split; (lia || tauto).
  - repeat split; try lia; intros ? [H | []]; discriminate H.
Qed.

(** C5: a run on a Show-kind reference makes at most one download attempt,
    runs the tool at most once, and passes no episode filter; whatever the
    outcome of that attempt, it is what the run returns. *)
Theorem show_attempts_one_unfiltered_download
    (spotifyUrl outputDir : jsstring) (w : world) :
  kind_of spotifyUrl = show ->
  exists (res : pipeline_result) (w' : world) (evs : list event),
    downloadSpotifyEpisode spotifyUrl outputDir w = (inr res, w') /\
    trace w' = trace w ++ evs /\
    (length (outcomes evs) <= 1)%nat /\
    (length (commands evs) <= 1)%nat /\
    Forall (fun ar => a_episodeFilter (fst ar) = JNull) (outcomes evs) /\
    Forall (fun ar => exists title found,
                        res = final_result title found (snd ar))
           (outcomes evs).
Proof.
  intros Hshow.
  destruct (pipeline_run spotifyUrl outputDir w)
    as (res & w' & evs & Hrun & Ht & Hshape).
  exists res, w', evs. split; [exact Hrun|]. split; [exact Ht|].
  destruct Hshape as [info Hinfo | info Htitle Hkind
                     | info found tool1 r1 Htitle Hkind Hfeed Htool1 Hwhy
                     | info found tool1 tool2 r1 r2 Htitle Hkind Hfeed
                         Htool1 Htool2 Hs1 Hep Hwords].
  - simpl. repeat split; (lia || constructor).
  - simpl. repeat split; (lia || constructor).
  - destruct (tool_events_facts tool1 Htool1) as (Ho & Hc & _ & _).
    rewrite !outcomes_app, !commands_app, Ho. simpl.
    rewrite app_nil_r. repeat split; try lia.
    + constructor; [|constructor]. simpl. by rewrite Hkind, Hshow.
    + constructor; [|constructor]. simpl. by eexists _, _.
  - congruence.
Qed.


(** C7, amended: when the search of the feed index gives nothing, an empty
    answer or a failure alike, the run returns the failure whose message
    is "Could not find RSS feed in iTunes", the message of the
    specification followed by " in iTunes"; it makes no download attempt and
    never runs the tool. *)
Theorem no_feed_no_download
    (spotifyUrl outputDir : jsstring) (w : world) (evs : list event) :
  trace (snd (downloadSpotifyEpisode spotifyUrl outputDir w))
    = trace w ++ evs ->
  In (Searched None) evs ->
  exists message : jsstring,
    fst (downloadSpotifyEpisode spotifyUrl outputDir w)
      = inr (Failed message) /\
    message = lit "Could not find RSS feed in iTunes" /\
    starts_with (lit "Could not find RSS feed") message = true /\
    outcomes evs = [] /\
    commands evs = [].
Proof.
  intros Ht Hin.
  destruct (pipeline_shape spotifyUrl outputDir w evs Ht)
    as (res & -> & Hshape).
  destruct Hshape as [info0 Hinfo | info0 Htitle Hkind
                     | info0 found tool1 r1' Htitle Hkind Hfeed Htool1 Hwhy
                     | info0 found tool1 tool2 r1' r2 Htitle Hkind Hfeed
                         Htool1 Htool2 Hs1' Hep' Hwords].
  - destruct Hin as [[=] | []].
  - eexists. split; [reflexivity|]. by repeat split.
  - destruct (tool_events_facts tool1 Htool1) as (_ & _ & _ & Hse).
    simpl in Hin. destruct Hin as [[=] | [[=] | Hin]].
    apply in_app_or in Hin as [Hin | [[=] | []]]. by apply Hse in Hin.
  - destruct (tool_events_facts tool1 Htool1) as (_ & _ & _ & Hse1).
    destruct (tool_events_facts tool2 Htool2) as (_ & _ & _ & Hse2).
    simpl in Hin. destruct Hin as [[=] | [[=] | Hin]].
    apply in_app_or in Hin as [Hin | [[=] | Hin]]; [by apply Hse1 in Hin|].
    apply in_app_or in Hin as [Hin | [[=] | []]]. by apply Hse2 in Hin.
Qed.

End PipelineClaims.

Section StageClaims.
Context `{RT : Runtime}.

(** Without a fragment to build a fuzzy filter from, a run makes one
    download attempt at most. *)
Lemma no_fragment_no_retry (spotifyUrl outputDir : jsstring) (w : world)
    (evs : list event) (info : spotify_info) :
  trace (snd (downloadSpotifyEpisode spotifyUrl outputDir w))
    = trace w ++ evs ->
  In (Resolved (Some info)) evs ->
  Matcher.fuzzyFilter (title_of info) = None ->
  (length (outcomes evs) <= 1)%nat.
Proof.
  intros Ht Hin Hnone.
  destruct (pipeline_shape spotifyUrl outputDir w evs Ht)
    as (res & _ & Hshape).
  apply fuzzyFilter_None in Hnone.
  destruct Hshape as [info0 Hinfo | info0 Htitle Hkind
                     | info0 found tool1 r1' Htitle Hkind Hfeed Htool1 Hwhy
                     | info0 found tool1 tool2 r1' r2 Htitle Hkind Hfeed
                         Htool1 Htool2 Hs1' Hep' Hwords].
  - simpl. lia.
  - simpl. lia.
  - destruct (tool_events_facts tool1 Htool1) as (Ho & _ & _ & _).
    rewrite !outcomes_app, Ho. simpl. lia.
  - destruct (tool_events_facts tool1 Htool1) as (_ & _ & Hres1 & _).
    destruct (tool_events_facts tool2 Htool2) as (_ & _ & Hres2 & _).
    assert (info = info0) as ->; [|done].
    simpl in Hin. destruct Hin as [[= ->] | [[=] | Hin]]; [done|].
    apply in_app_or in Hin as [Hin | [[=] | Hin]];
      [by apply Hres1 in Hin|].
    apply in_app_or in Hin as [Hin | [[=] | []]]. by apply Hres2 in Hin.
Qed.

(** C8, amended: for a well-formed answer that leaves no candidate the
    search returns null; for a transport error, a rejected request, a
    status that is not a success or a body that cannot be parsed, it
    returns null as well: the returned value is the same, and the two
    outcomes differ by the console only, where the transport error leaves
    one [console.error] line and the empty answer none. *)
Theorem search_null_on_no_match_and_on_error
    (query entity : jsstring) (w1 w2 : world) (q : jsstring)
    (response : response) (e1 : ext) (data : payload) :
  encodeURIComponent query = inr q ->
  fetch (search_url q entity) (outside w1) = (inr response, e1) ->
  ok response = true ->
  json response = inr data ->
  Search.search_results (p_results data) = None ->
  transport_error (fst (fetch (search_url q entity) (outside w2)))
  || unparsable (fst (fetch (search_url q entity) (outside w2))) = true ->
  fst (searchItunesRss query entity w1) = inr None /\
  fst (searchItunesRss query entity w2) = inr None /\
  console (snd (searchItunesRss query entity w1)) = console w1 /\
  exists line : list jsstring,
    console (snd (searchItunesRss query entity w2))
    = console w2 ++ [ConsoleError line].
Proof.
  intros Hq Hfetch Hok Hjson Hnone Herr.
  rewrite !searchItunesRss_unfold, Hq, Hfetch, Hok, Hjson, Hnone.
  split; [reflexivity|].
  destruct (fetch (search_url q entity) (outside w2))
    as [[message | response2] e2]; simpl in Herr.
  - split; [reflexivity|]. split; [reflexivity|]. by eexists.
  - destruct (ok response2); simpl in Herr.
    + destruct (json response2) as [message | data2]; [|discriminate Herr].
      split; [reflexivity|]. split; [reflexivity|]. by eexists.
    + split; [reflexivity|]. split; [reflexivity|]. by eexists.
Qed.

(** C9: a download attempt returns an outcome, and never throws.  The
    outcome is a success only if the tool exited normally and the output
    directory, read after that, holds a file whose name ends with [.mp3],
    [.m4a] or [.wav]; if the tool exited normally and the directory holds
    no such file, the outcome is the failure "No audio files
    downloaded". *)
Theorem download_succeeds_only_with_audio_file
    (rssUrl : jsval) (outputDir : jsstring) (episodeFilter : jsval)
    (w : world) :
  exists (res : download_result) (evs : list event),
    fst (downloadFromRss rssUrl outputDir episodeFilter w) = inr res /\
    trace (snd (downloadFromRss rssUrl outputDir episodeFilter w))
      = trace w ++ evs
        ++ [Attempted {| a_rssUrl := rssUrl; a_outputDir := outputDir;
                         a_episodeFilter := episodeFilter |} res] /\
    tool_events evs /\
    (success res = true ->
     exists out listing,
       evs = [Executed (build_command rssUrl outputDir episodeFilter)
                       (inr out)] /\
       readdirSync outputDir
         (outside (snd (downloadFromRss rssUrl outputDir episodeFilter w)))
         = inr listing /\
       existsb is_audio listing = true) /\
    (forall command out listing,
       evs = [Executed command (inr out)] ->
       readdirSync outputDir
         (outside (snd (downloadFromRss rssUrl outputDir episodeFilter w)))
         = inr listing ->
       existsb is_audio listing = false ->
       res = NotDownloaded (lit "No audio files downloaded") /\
       success res = false).
Proof.
  destruct (downloadFromRss_run rssUrl outputDir episodeFilter w)
    as (res & w' & evs & -> & Ht & Htool & Hyes & Hno).
  exists res, evs. simpl.
  split; [reflexivity|]. split; [exact Ht|].
  split; [by apply tool_events_of in Htool|]. split; [exact Hyes|].
  intros command out listing Hevs Hrd Hex.
  rewrite (Hno command out listing Hevs Hrd Hex). by split.
Qed.

End StageClaims.

(** C4, as stated, fails, in two ways.  The closing brace belongs to the
    metacharacter set of the specification, and the fragment [abc}def] of
    the title [abc}def ghi] goes into the fuzzy filter with its brace
    unescaped.  And the filter [.*Hello.*World.*] of the title
    [Hello World] does not match the string that has [Hello] and [World]
    on two lines, although it contains both fragments in order: the
    wildcard gap stops at a line terminator. *)
Lemma fuzzyFilter_leaves_closing_brace :
  Matcher.spec_class 125 = true /\
  Matcher.words (lit "abc}def ghi") = [lit "abc}def"; lit "ghi"] /\
  Matcher.fuzzyFilter (lit "abc}def ghi") = Some (lit ".*abc}def.*ghi.*") /\
  map (Matcher.unescaped Matcher.spec_class)
      (Matcher.words (lit "abc}def ghi")) = [[125]; []] /\
  ~ (forall title : jsstring,
       Forall (fun word : jsstring =>
                 Matcher.unescaped Matcher.spec_class word = [])
              (Matcher.words title)) /\
  Matcher.fuzzyFilter (lit "Hello World") = Some (lit ".*Hello.*World.*") /\
  Matcher.tokens Matcher.regex_class (lit ".*Hello.*World.*")
    = Some (Matcher.fuzzy_tokens [lit "Hello"; lit "World"]) /\
  Matcher.in_order [lit "Hello"; lit "World"]
    (lit "Hello" ++ [10] ++ lit "World") /\
  Matcher.tmatch (Matcher.fuzzy_tokens [lit "Hello"; lit "World"])
    (lit "Hello" ++ [10] ++ lit "World") = false /\
  Matcher.tsearch (Matcher.fuzzy_tokens [lit "Hello"; lit "World"])
    (lit "Hello" ++ [10] ++ lit "World") = false.
Proof.
  split; [reflexivity|]. split; [reflexivity|]. split; [reflexivity|].
  split; [reflexivity|]. split.
  { intros H. specialize (H (lit "abc}def ghi")).
    apply Forall_inv in H. discriminate H. }
  split; [reflexivity|]. split; [reflexivity|]. split.
  { exists [], ([10] ++ lit "World"). split; [reflexivity|].
    exists [10], []. split; [reflexivity | exact I]. }
  split; vm_compute; reflexivity.
Qed.

(** C4, amended: the fuzzy filter of a title.  The title is cut on its
    runs of white space, hyphens, colons and commas; the fragments of two
    code units or fewer are dropped; in each fragment kept every character
    of the class of the code, the thirteen characters
    [[ ] . * ^ $ ( ) + ? { | \], is escaped, and of the set of the
    specification the closing brace, and only it, stays unescaped wherever
    the fragment has one; the filter is a wildcard gap, the fragments with
    a wildcard gap between two of them, a wildcard gap.  A wildcard gap
    takes no line terminator: against a whole string the filter matches
    the strings made of the fragments kept, in order, with runs free of
    line terminators before, between and after them; looked for inside a
    string, it matches when some part of the string is so made.  Every
    string it matches contains the fragments in order, and it matches every
    string without line terminator that contains them in order.  When no
    fragment is kept no filter is built, and a run of the pipeline on such
    a title makes no second download attempt. *)
Theorem fuzzyFilter_built_from_fragments (title : jsstring) :
  Matcher.on_runs title (Matcher.split_title title) /\
  Matcher.words title
    = map Matcher.escape_regex
        (filter (fun word : jsstring => (2 < length word)%nat)
                (Matcher.split_title title)) /\
  Forall (fun word : jsstring =>
            Matcher.unescaped Matcher.regex_class word = [])
         (Matcher.words title) /\
  map (Matcher.unescaped Matcher.spec_class) (Matcher.words title)
    = map (List.filter (fun c => c =? 125))
        (filter (fun word : jsstring => (2 < length word)%nat)
                (Matcher.split_title title)) /\
  Matcher.fuzzyFilter title
    = match Matcher.words title with
      | [] => None
      | _ :: _ =>
          Some (lit ".*" ++ join (lit ".*") (Matcher.words title) ++ lit ".*")
      end /\
  (exists ts : list Matcher.tok,
     ts = Matcher.fuzzy_tokens
            (filter (fun word : jsstring => (2 < length word)%nat)
                    (Matcher.split_title title)) /\
     Matcher.tokens Matcher.regex_class
       (Matcher.partialFilter (Matcher.words title)) = Some ts /\
     (forall s : jsstring,
        Matcher.tmatch ts s = true <->
        Matcher.gapped
          (filter (fun word : jsstring => (2 < length word)%nat)
                  (Matcher.split_title title)) s) /\
     (forall s : jsstring,
        Matcher.tsearch ts s = true <->
        exists pre m post : jsstring,
          s = pre ++ m ++ post /\
          Matcher.gapped
            (filter (fun word : jsstring => (2 < length word)%nat)
                    (Matcher.split_title title)) m) /\
     (forall s : jsstring,
        Matcher.tsearch ts s = true ->
        Matcher.in_order
          (filter (fun word : jsstring => (2 < length word)%nat)
                  (Matcher.split_title title)) s) /\
     (forall s : jsstring,
        Matcher.line_free s = true ->
        Matcher.in_order
          (filter (fun word : jsstring => (2 < length word)%nat)
                  (Matcher.split_title title)) s ->
        Matcher.tmatch ts s = true /\ Matcher.tsearch ts s = true)) /\
  (forall (RT : Runtime) (spotifyUrl outputDir : jsstring) (w : world)
          (evs : list event) (info : spotify_info),
     trace (snd (downloadSpotifyEpisode spotifyUrl outputDir w))
       = trace w ++ evs ->
     In (Resolved (Some info)) evs ->
     title_of info = title ->
     Matcher.fuzzyFilter title = None ->
     (length (outcomes evs) <= 1)%nat).
Proof.
  split; [apply split_title_on_runs|]. split; [reflexivity|]. split.
  { unfold Matcher.words. apply Forall_map, Forall_forall.
    intros word _. apply unescaped_escape_regex. }
  split.
  { unfold Matcher.words. rewrite List.map_map. apply List.map_ext.
    intros word. apply unescaped_spec_escape_regex. }
  split.
  { unfold Matcher.fuzzyFilter. by destruct (Matcher.words title). }
  split.
  { eexists. split; [reflexivity|]. split; [apply tokens_partialFilter|].
    apply fuzzy_tokens_matches. }
  intros RT spotifyUrl outputDir w evs info Ht Hin <- Hnone.
  by apply (no_fragment_no_retry spotifyUrl outputDir w evs info).
Qed.

(** ** The claims on concrete runs *)

Section Witnesses.
Import Fixture.

(** A title of short fragments: no fuzzy filter, and one attempt. *)
Lemma short_title_makes_one_attempt :
  Matcher.fuzzyFilter (lit "Ab: cd") = None /\
  (length (outcomes (trace (snd (downloadSpotifyEpisode episode_url out_dir
                                   (start st_short))))) <= 1)%nat.
Proof.
  split; [reflexivity|].
  destruct (fuzzyFilter_built_from_fragments (lit "Ab: cd"))
    as (_ & _ & _ & _ & _ & _ & Hrun).
  apply (Hrun runtime episode_url out_dir (start st_short) _
           {| info_title := JStr (lit "Ab: cd"); info_type := episode |}).
  - reflexivity.
  - vm_compute. by left.
  - reflexivity.
  - reflexivity.
Defined.

(** A show: one attempt, without filter. *)
Lemma show_run_attempts_once :
  kind_of show_url = show /\
  exists (res : pipeline_result) (w' : world) (evs : list event),
    downloadSpotifyEpisode show_url out_dir (start st_show) = (inr res, w') /\
    trace w' = trace (start st_show) ++ evs /\
    (length (outcomes evs) <= 1)%nat /\
    (length (commands evs) <= 1)%nat /\
    Forall (fun ar => a_episodeFilter (fst ar) = JNull) (outcomes evs) /\
    Forall (fun ar => exists title found,
                        res = final_result title found (snd ar))
           (outcomes evs).
Proof.
  split; [reflexivity|].
  apply show_attempts_one_unfiltered_download. reflexivity.
Defined.


(** C7, as stated, fails: on a run whose search finds no feed the message
    returned is "Could not find RSS feed in iTunes", which is not the
    message "Could not find RSS feed" of the claim. *)
Lemma no_feed_message_names_itunes :
  In (Searched None)
     (trace (snd (downloadSpotifyEpisode episode_url out_dir
                    (start st_no_feed)))) /\
  fst (downloadSpotifyEpisode episode_url out_dir (start st_no_feed))
    = inr (Failed (lit "Could not find RSS feed in iTunes")) /\
  fst (downloadSpotifyEpisode episode_url out_dir (start st_no_feed))
    <> inr (Failed (lit "Could not find RSS feed")) /\
  ~ (forall (RT : Runtime) (spotifyUrl outputDir : jsstring)
            (w : @world RT),
       In (Searched None)
          (@trace RT (snd (@downloadSpotifyEpisode RT spotifyUrl outputDir
                             w))) ->
       fst (@downloadSpotifyEpisode RT spotifyUrl outputDir w)
         = inr (Failed (lit "Could not find RSS feed"))).
Proof.
  assert (Hin : In (Searched None)
                   (trace (snd (downloadSpotifyEpisode episode_url out_dir
                                  (start st_no_feed)))))
    by (vm_compute; right; by left).
  assert (Hrun : fst (downloadSpotifyEpisode episode_url out_dir
                        (start st_no_feed))
                 = inr (Failed (lit "Could not find RSS feed in iTunes")))
    by (vm_compute; reflexivity).
  split; [exact Hin|]. split; [exact Hrun|]. split.
  - rewrite Hrun. intros H. apply (f_equal (fun r =>
      match r with inr (Failed m) => length m | _ => 0%nat end)) in H.
    vm_compute in H. discriminate H.
  - intros H.
    specialize (H runtime episode_url out_dir (start st_no_feed) Hin).
    rewrite Hrun in H. apply (f_equal (fun r =>
      match r with inr (Failed m) => length m | _ => 0%nat end)) in H.
    vm_compute in H. discriminate H.
Qed.

(** The index has no feed for the title: no download attempt. *)
Lemma no_feed_run_stops :
  exists message : jsstring,
    fst (downloadSpotifyEpisode episode_url out_dir (start st_no_feed))
      = inr (Failed message) /\
    message = lit "Could not find RSS feed in iTunes" /\
    starts_with (lit "Could not find RSS feed") message = true /\
    outcomes (trace (snd (downloadSpotifyEpisode episode_url out_dir
                            (start st_no_feed)))) = [] /\
    commands (trace (snd (downloadSpotifyEpisode episode_url out_dir
                            (start st_no_feed)))) = [].
Proof.
  apply (no_feed_no_download episode_url out_dir (start st_no_feed)).
  - reflexivity.
  - vm_compute. right. by left.
Defined.

(** C8, as stated, fails: the search returns the same value, null, for an
    empty answer of the index, for an answer with status 500 and for a
    request that failed; nothing in the returned value tells them apart. *)
Lemma search_null_hides_transport_error :
  fst (searchItunesRss (lit "Episode 42: Deep Dive") (lit "podcastEpisode")
         (start st_no_feed)) = inr None /\
  fst (searchItunesRss (lit "Episode 42: Deep Dive") (lit "podcastEpisode")
         (start st_index_500))
  = fst (searchItunesRss (lit "Episode 42: Deep Dive") (lit "podcastEpisode")
           (start st_no_feed)) /\
  fst (searchItunesRss (lit "Episode 42: Deep Dive") (lit "podcastEpisode")
         (start st_index_down))
  = fst (searchItunesRss (lit "Episode 42: Deep Dive") (lit "podcastEpisode")
           (start st_no_feed)).
Proof. repeat split; vm_compute; reflexivity. Qed.

(** An empty answer and an unreachable index: null both times. *)
Lemma empty_answer_and_index_down_both_null :
  fst (searchItunesRss (lit "Episode 42: Deep Dive") (lit "podcastEpisode")
         (start st_no_feed)) = inr None /\
  fst (searchItunesRss (lit "Episode 42: Deep Dive") (lit "podcastEpisode")
         (start st_index_down)) = inr None /\
  console (snd (searchItunesRss (lit "Episode 42: Deep Dive")
                  (lit "podcastEpisode") (start st_no_feed)))
    = console (start st_no_feed) /\
  exists line : list jsstring,
    console (snd (searchItunesRss (lit "Episode 42: Deep Dive")
                    (lit "podcastEpisode") (start st_index_down)))
    = console (start st_index_down) ++ [ConsoleError line].
Proof.
  apply (search_null_on_no_match_and_on_error
           (lit "Episode 42: Deep Dive") (lit "podcastEpisode")
           (start st_no_feed) (start st_index_down)
           (lit "Episode 42: Deep Dive")
           {| status := 200;
              json := inr {| p_title := JUndefined; p_results := Some [] |} |}
           st_no_feed
           {| p_title := JUndefined; p_results := Some [] |}).
  - reflexivity.
  - reflexivity.
  - reflexivity.
  - reflexivity.
  - reflexivity.
  - reflexivity.
Defined.

(** The tool exits normally and leaves only a text file: the outcome is
    the failure "No audio files downloaded". *)
Lemma text_file_only_is_no_audio :
  is_audio (lit "notes.txt") = false /\
  fst (downloadFromRss feed_x out_dir JNull (start st_txt)) = inr no_audio.
Proof.
  split; [reflexivity|].
  destruct (download_succeeds_only_with_audio_file
              feed_x out_dir JNull (start st_txt))
    as (res & evs & -> & Ht & _ & _ & Hno).
  f_equal.
  assert (Hc : trace (snd (downloadFromRss feed_x out_dir JNull
                             (start st_txt)))
               = [Executed (build_command feed_x out_dir JNull)
                           (inr ([], []))]
                 ++ [Attempted {| a_rssUrl := feed_x; a_outputDir := out_dir;
                                  a_episodeFilter := JNull |} no_audio])
    by (vm_compute; reflexivity).
  rewrite Hc in Ht.
  change (trace (start st_txt) ++ evs ++ ?tl) with (evs ++ tl) in Ht.
  apply app_inj_tail in Ht as [<- _].
  apply (Hno (build_command feed_x out_dir JNull) ([], [])
             [lit "notes.txt"]); reflexivity.
Defined.

End Witnesses.

(** ** The program on concrete inputs *)

Section Examples.
Import Fixture.

Example split_example :
  Matcher.split_title (lit "The A.I. Revolution: Part One")
  = [lit "The"; lit "A.I."; lit "Revolution"; lit "Part"; lit "One"].
Proof. reflexivity. Qed.

Example fuzzy_example :
  Matcher.fuzzyFilter (lit "The A.I. Revolution: Part One")
  = Some (lit ".*The.*A\.I\..*Revolution.*Part.*One.*").
Proof. reflexivity. Qed.

Example split_edges :
  Matcher.split_title (lit ": a --b,") = [[]; lit "a"; lit "b"; []].
Proof. reflexivity. Qed.

Example exact_example :
  Matcher.episodeFilter (lit "What is 2+2? (Part 1)")
  = lit "What is 2\+2\? \(Part 1\)".
Proof. reflexivity. Qed.

Example tokens_example :
  Matcher.tokens Matcher.regex_class (lit ".*a\.b.*")
  = Some [Matcher.TGap; Matcher.TLit 97; Matcher.TLit 46; Matcher.TLit 98;
          Matcher.TGap].
Proof. reflexivity. Qed.

(** Two results with the same feedUrl and different names: one candidate,
    with the name seen first. *)
Example same_feed_twice :
  Search.candidates [result_x1; result_x2]
  = [{| Search.feedUrl := feed_x;
        Search.collectionName := JStr (lit "First Name") |}].
Proof. vm_compute. reflexivity. Qed.

(** Results without feedUrl are skipped; the trackName stands in for a
    missing collectionName. *)
Example skip_without_feed :
  Search.candidates [result_nofeed; result_y; result_x1]
  = [{| Search.feedUrl := feed_y;
        Search.collectionName := JStr (lit "Track Y") |}].
Proof. vm_compute. reflexivity. Qed.

(** A show: the whole feed is downloaded, the most recent file returned. *)
Example show_run :
  fst (downloadSpotifyEpisode show_url out_dir (start st_show))
  = inr (Succeeded (lit "./downloads/two.m4a") (lit "two.m4a")
                   (lit "My Show") (JStr (lit "First Name")) feed_x).
Proof. vm_compute. reflexivity. Qed.

(** An episode found by the fuzzy filter only. *)
Example retry_run :
  fst (downloadSpotifyEpisode episode_url out_dir (start st_retry))
  = inr (Succeeded (lit "./downloads/Episode 42.mp3") (lit "Episode 42.mp3")
                   (lit "Episode 42: Deep Dive") (JStr (lit "First Name"))
                   feed_x) /\
  map (fun ar => a_episodeFilter (fst ar))
      (outcomes (trace (snd (downloadSpotifyEpisode episode_url out_dir
                               (start st_retry)))))
  = [JStr (lit "Episode 42: Deep Dive");
     JStr (lit ".*Episode.*Deep.*Dive.*")].
Proof. split; vm_compute; reflexivity. Qed.

(** The index answers 500: the run fails without a download. *)
Example index_500_run :
  fst (downloadSpotifyEpisode episode_url out_dir (start st_index_500))
  = inr (Failed (lit "Could not find RSS feed in iTunes")) /\
  console (snd (searchItunesRss (lit "x") (lit "podcast")
                  (start st_index_500)))
  = [ConsoleError [lit "iTunes search failed: 500"]].
Proof. split; vm_compute; reflexivity. Qed.

(** The command line of an attempt with a filter that holds a quote. *)
Example command_with_filter :
  build_command feed_x out_dir (JStr (92 :: 40 :: 34 :: lit "a"))
  = lit "npx podcast-dl --url " ++ dquote ++ lit "https://feed.example/x.xml"
    ++ dquote ++ lit " --out-dir " ++ dquote ++ lit "./downloads" ++ dquote
    ++ lit " --episode-template " ++ dquote ++ lit "{{episode_title}}"
    ++ dquote ++ lit " --episode-regex " ++ dquote
    ++ (92 :: 40 :: 92 :: 34 :: lit "a") ++ dquote.
Proof. reflexivity. Qed.

End Examples.

(** * Further properties *)

(** ** The sort of the downloaded files *)

Section SortFacts.

Lemma sort_insert_Permutation (a : file_stats) (l : list file_stats) :
  Permutation (sort_insert a l) (a :: l).
Proof.
  induction l as [|b l IH]; simpl; [done|].
  destruct (comparator a b <=? 0)%Z; [done|].
  rewrite IH. apply perm_swap.
Qed.

Lemma sort_by_mtime_Permutation (l : list file_stats) :
  Permutation (sort_by_mtime l) l.
Proof.
  induction l as [|a l IH]; simpl; [done|].
  change (foldr sort_insert [] l) with (sort_by_mtime l).
  by rewrite sort_insert_Permutation, IH.
Qed.

Lemma sort_insert_sorted (a : file_stats) (l : list file_stats) :
  StronglySorted not_older l -> StronglySorted not_older (sort_insert a l).
Proof.
  induction 1 as [|b l Hl IH Hb]; simpl.
  - repeat constructor.
  - unfold comparator. destruct (Z.leb_spec (mtime b - mtime a) 0) as [Hle | Hgt].
    + constructor; [by constructor|]. constructor.
      * unfold not_older. lia.
      * eapply Forall_impl; [exact Hb|]. unfold not_older. intros x Hx. lia.
    + constructor; [exact IH|].
      rewrite sort_insert_Permutation. constructor; [|exact Hb].
      unfold not_older. lia.
Qed.

Lemma sort_insert_same_mtime (t : Z) (a : file_stats) (l : list file_stats) :
  List.filter (fun x => (mtime x =? t)%Z) (sort_insert a l)
  = List.filter (fun x => (mtime x =? t)%Z) (a :: l).
Proof.
  induction l as [|b l IH]; [done|].
  simpl sort_insert. unfold comparator.
  destruct (Z.leb_spec (mtime b - mtime a) 0) as [Hle | Hgt]; [done|].
  simpl in *. rewrite IH.
  destruct (Z.eqb_spec (mtime a) t), (Z.eqb_spec (mtime b) t); try done.
  lia.
Qed.

(** X8: the sort of line 138 rearranges the files from the most recently
    modified to the oldest, and keeps files modified at the same time in
    the order of the directory listing. *)
Theorem sort_by_mtime_sorts (l : list file_stats) :
  Permutation (sort_by_mtime l) l /\
  StronglySorted not_older (sort_by_mtime l) /\
  (forall t : Z,
     List.filter (fun x => (mtime x =? t)%Z) (sort_by_mtime l)
     = List.filter (fun x => (mtime x =? t)%Z) l).
Proof.
  split; [apply sort_by_mtime_Permutation|]. split.
  - induction l as [|a l IH]; simpl; [constructor|].
    by apply sort_insert_sorted.
  - intros t. induction l as [|a l IH]; [done|].
    simpl sort_by_mtime. rewrite sort_insert_same_mtime.
    simpl. change (foldr sort_insert [] l) with (sort_by_mtime l).
    by rewrite IH.
Qed.

(** The first file after the sort is one of the files, and none is more
    recent. *)
Lemma sort_by_mtime_head (l rest : list file_stats) (first : file_stats) :
  sort_by_mtime l = first :: rest ->
  In first l /\ forall x, In x l -> (mtime x <= mtime first)%Z.
Proof.
  intros Hsort.
  pose proof (sort_by_mtime_Permutation l) as Hperm.
  assert (Hsorted : StronglySorted not_older (sort_by_mtime l)).
  { induction l as [|a l' IH]; simpl; [constructor|].
    apply sort_insert_sorted.
    clear. induction l' as [|b l' IH]; simpl; [constructor|].
    by apply sort_insert_sorted. }
  rewrite Hsort in Hperm, Hsorted. split.
  - apply (Permutation_in first Hperm). by left.
  - intros x Hx. apply (Permutation_in x (Permutation_sym Hperm)) in Hx.
    apply StronglySorted_inv in Hsorted as [_ Hall].
    destruct Hx as [<- | Hx]; [lia|].
    rewrite List.Forall_forall in Hall. by apply Hall.
Qed.

End SortFacts.

(** ** One download attempt, case by case *)

Section DownloadCases.
Context `{RT : Runtime}.

Ltac step := cbv beta iota; cbn [outside console trace negb fst snd].

(** Reading the modification times: the first failure is thrown;
    otherwise every file gets its time. *)
Lemma map_M_stat_file_cases (outputDir : jsstring) (files : list jsstring)
    (w : world) :
  (exists (message g : jsstring),
     In g files /\
     statSync_mtime (path_join outputDir g) (outside w) = inl message /\
     map_M (stat_file outputDir) files w = (inl message, w)) \/
  (exists stats : list file_stats,
     map_M (stat_file outputDir) files w = (inr stats, w) /\
     Forall2 (fun f st =>
                name st = f /\ path st = path_join outputDir f /\
                statSync_mtime (path_join outputDir f) (outside w)
                  = inr (mtime st))
             files stats).
Proof.
  induction files as [|f files IH].
  - right. exists []. split; [done | constructor].
  - simpl. unfold bind. rewrite stat_file_run.
    destruct (statSync_mtime (path_join outputDir f) (outside w))
      as [message | t] eqn:Hstat.
    + left. exists message, f. split; [by left|]. by split.
    + destruct IH as [(message & g & Hg & Hs & ->) | (stats & -> & Hstats)].
      * left. exists message, g. split; [by right|]. by split.
      * right. eexists. split; [reflexivity|]. by constructor.
Qed.

(** The search for the downloaded file, as a function of the outside
    world alone. *)
Lemma find_downloaded_cases (outputDir : jsstring) (w : world) :
  match readdirSync outputDir (outside w) with
  | inl message => find_downloaded outputDir w = (inl message, w)
  | inr listing =>
      if existsb is_audio listing then
        (exists (message g : jsstring),
           In g listing /\ is_audio g = true /\
           statSync_mtime (path_join outputDir g) (outside w) = inl message /\
           find_downloaded outputDir w = (inl message, w)) \/
        (exists (n : jsstring) (t : Z),
           find_downloaded outputDir w
             = (inr (Downloaded (path_join outputDir n) n), w) /\
           In n listing /\ is_audio n = true /\
           statSync_mtime (path_join outputDir n) (outside w) = inr t /\
           forall g : jsstring,
             In g listing -> is_audio g = true ->
             exists tg : Z,
               statSync_mtime (path_join outputDir g) (outside w) = inr tg /\
               (tg <= t)%Z)
      else
        find_downloaded outputDir w
        = (inr (NotDownloaded (lit "No audio files downloaded")), w)
  end.
Proof.
  rewrite find_downloaded_unfold.
  destruct (readdirSync outputDir (outside w)) as [message | listing];
    [reflexivity|].
  destruct (existsb is_audio listing) eqn:Hex; [|reflexivity].
  destruct (map_M_stat_file_cases outputDir (List.filter is_audio listing) w)
    as [(message & g & Hg & Hs & ->) | (stats & -> & Hstats)].
  - left. apply filter_In in Hg as [Hg Ha]. by exists message, g.
  - destruct (sort_by_mtime stats) as [|first sorted] eqn:Hsort.
    + exfalso. apply existsb_exists in Hex as (g & Hg & Ha).
      assert (Hin : In g (List.filter is_audio listing))
        by (by apply filter_In).
      pose proof (sort_by_mtime_Permutation stats) as Hperm.
      rewrite Hsort in Hperm. apply Permutation_nil in Hperm. subst stats.
      apply Forall2_nil_inv_r in Hstats. by rewrite Hstats in Hin.
    + right. apply sort_by_mtime_head in Hsort as [Hin Hmax].
      assert (Hall : forall st, In st stats ->
                In (name st) (List.filter is_audio listing) /\
                path st = path_join outputDir (name st) /\
                statSync_mtime (path_join outputDir (name st)) (outside w)
                  = inr (mtime st)).
      { clear -Hstats. induction Hstats as [|f st files stats (<- & Hp & Hs) _ IH].
        - intros st [].
        - intros st' [<- | Hst']; [split; [by left | done]|].
          destruct (IH st' Hst') as (? & ? & ?). split; [by right | done]. }
      destruct (Hall first Hin) as (Hn & Hp & Hs).
      apply filter_In in Hn as [Hn Ha].
      exists (name first), (mtime first). rewrite Hp.
      split; [done|]. split; [done|]. split; [done|]. split; [done|].
      intros g Hg Hga.
      assert (Hgin : In g (List.filter is_audio listing))
        by (by apply filter_In).
      assert (exists st, In st stats /\ name st = g) as (st & Hst & <-).
      { clear -Hstats Hgin. induction Hstats as [|f st files stats (Hf & _) _ IH].
        - destruct Hgin.
        - destruct Hgin as [<- | Hgin]; [exists st; split; [by left | done]|].
          destruct (IH Hgin) as (st' & ? & ?). exists st'. split; [by right | done]. }
      destruct (Hall st Hst) as (_ & _ & Hss).
      exists (mtime st). split; [done|]. by apply Hmax.
Qed.

Lemma find_downloaded_world (outputDir : jsstring) (w : world) :
  exists r, find_downloaded outputDir w = (r, w).
Proof.
  pose proof (find_downloaded_run outputDir w) as H.
  destruct (readdirSync outputDir (outside w)) as [message | listing];
    [by eexists|].
  destruct (existsb is_audio listing); [|by eexists].
  destruct H as [(message & H) | (f & _ & _ & H)]; by eexists.
Qed.

(** The run of the tool: what it was called on, and what followed. *)
Lemma run_tool_cases (rssUrl : jsval) (outputDir : jsstring)
    (episodeFilter : jsval) (w : world) :
  exists r w' outcome,
    run_tool rssUrl outputDir episodeFilter w = (r, w') /\
    execAsync (build_command rssUrl outputDir episodeFilter)
              600000 (50 * 1024 * 1024) (outside w)
      = (outcome, outside w') /\
    trace w' = trace w
               ++ [Executed (build_command rssUrl outputDir episodeFilter)
                            outcome] /\
    match outcome with
    | inl message => r = inl message
    | inr _ => find_downloaded outputDir w' = (r, w')
    end.
Proof.
  unfold run_tool, bind, outside_op, noting, console_log, ret.
  destruct w as [e c t]. step.
  destruct (execAsync (build_command rssUrl outputDir episodeFilter) _ _ e)
    as [[message | out] e2]; step.
  - by eexists _, _, (inl message).
  - destruct (negb _ && negb _); step;
      match goal with
      | |- context [find_downloaded outputDir ?W] =>
          destruct (find_downloaded_world outputDir W) as (r & Hr)
      end;
      rewrite Hr; by eexists r, _, (inr out).
Qed.

(** A call of [downloadFromRss], case by case: the directory could not be
    made, and the tool was not run; or the tool was run, on the directory
    as it was or as it was made, and failed or was followed by the search
    for the downloaded file. *)
Lemma downloadFromRss_cases (rssUrl : jsval) (outputDir : jsstring)
    (episodeFilter : jsval) (w : world) :
  exists (res : download_result) (w' : world),
    downloadFromRss rssUrl outputDir episodeFilter w = (inr res, w') /\
    ((exists message e1,
        existsSync outputDir (outside w) = false /\
        mkdirSync outputDir (outside w) = (inl message, e1) /\
        res = NotDownloaded message /\
        outside w' = e1 /\
        trace w' = trace w
          ++ [Attempted {| a_rssUrl := rssUrl; a_outputDir := outputDir;
                           a_episodeFilter := episodeFilter |} res]) \/
     (exists e1 outcome,
        (existsSync outputDir (outside w) = true /\ e1 = outside w \/
         existsSync outputDir (outside w) = false /\
         mkdirSync outputDir (outside w) = (inr tt, e1)) /\
        execAsync (build_command rssUrl outputDir episodeFilter)
                  600000 (50 * 1024 * 1024) e1
          = (outcome, outside w') /\
        trace w' = trace w
          ++ [Executed (build_command rssUrl outputDir episodeFilter) outcome;
              Attempted {| a_rssUrl := rssUrl; a_outputDir := outputDir;
                           a_episodeFilter := episodeFilter |} res] /\
        match outcome with
        | inl message => res = NotDownloaded message
        | inr _ =>
            exists w1,
              outside w1 = outside w' /\
              (find_downloaded outputDir w1 = (inr res, w1) \/
               exists message,
                 find_downloaded outputDir w1 = (inl message, w1) /\
                 res = NotDownloaded message)
        end)).
Proof.
  assert (Hrest : forall w1 : world,
    exists (res : download_result) (w' : world) outcome,
      returning
        (Attempted {| a_rssUrl := rssUrl; a_outputDir := outputDir;
                      a_episodeFilter := episodeFilter |})
        (try_catch (run_tool rssUrl outputDir episodeFilter)
           (fun message =>
              bind (console_error [lit "[SpotifyDownloader] Download error:";
                                   message])
                   (fun _ => ret (NotDownloaded message)))) w1
      = (inr res, w') /\
      execAsync (build_command rssUrl outputDir episodeFilter)
                600000 (50 * 1024 * 1024) (outside w1)
        = (outcome, outside w') /\
      trace w' = trace w1
        ++ [Executed (build_command rssUrl outputDir episodeFilter) outcome;
            Attempted {| a_rssUrl := rssUrl; a_outputDir := outputDir;
                         a_episodeFilter := episodeFilter |} res] /\
      match outcome with
      | inl message => res = NotDownloaded message
      | inr _ =>
          exists w2,
            outside w2 = outside w' /\
            (find_downloaded outputDir w2 = (inr res, w2) \/
             exists message,
               find_downloaded outputDir w2 = (inl message, w2) /\
               res = NotDownloaded message)
      end).
  { intros w1.
    unfold returning, try_catch, bind, console_error, note, ret.
    destruct (run_tool_cases rssUrl outputDir episodeFilter w1)
      as (r & w' & outcome & -> & Hexec & Ht & Hr).
    destruct outcome as [message | out].
    - subst r. eexists _, _, _. split; [reflexivity|]. step.
      split; [exact Hexec|]. split; [by rewrite Ht, <- app_assoc|]. done.
    - destruct r as [message | res].
      + eexists _, _, _. split; [reflexivity|]. step.
        split; [exact Hexec|]. split; [by rewrite Ht, <- app_assoc|].
        exists w'. split; [done|]. right. by exists message.
      + eexists _, _, _. split; [reflexivity|]. step.
        split; [exact Hexec|]. split; [by rewrite Ht, <- app_assoc|].
        exists w'. split; [done|]. by left. }
  unfold downloadFromRss, returning, try_catch, bind, outside_read,
    outside_op, console_error, note, ret in *.
  destruct w as [e c t]. step.
  destruct (existsSync outputDir e) eqn:Hex; step.
  - destruct (Hrest {| outside := e; console := c; trace := t |})
      as (res & w' & outcome & -> & Hexec & Ht & Hr).
    exists res, w'. split; [reflexivity|]. right.
    exists e, outcome. split; [by left|]. by repeat split.
  - destruct (mkdirSync outputDir e) as [[message | []] e1] eqn:Hmk; step.
    + eexists _, _. split; [reflexivity|]. left.
      exists message, e1. by repeat split.
    + destruct (Hrest {| outside := e1; console := c; trace := t |})
        as (res & w' & outcome & -> & Hexec & Ht & Hr).
      exists res, w'. split; [reflexivity|]. right.
      exists e1, outcome. split; [by right|]. by repeat split.
Qed.

End DownloadCases.

Section DownloadExtras.
Context `{RT : Runtime}.

(** A successful attempt, read off the outside world it leaves. *)
Lemma downloadFromRss_downloaded (rssUrl : jsval) (outputDir : jsstring)
    (episodeFilter : jsval) (w : world) (p n : jsstring) :
  fst (downloadFromRss rssUrl outputDir episodeFilter w)
    = inr (Downloaded p n) ->
  exists (listing : list jsstring) (t : Z),
    readdirSync outputDir
      (outside (snd (downloadFromRss rssUrl outputDir episodeFilter w)))
      = inr listing /\
    In n listing /\ is_audio n = true /\ p = path_join outputDir n /\
    statSync_mtime p
      (outside (snd (downloadFromRss rssUrl outputDir episodeFilter w)))
      = inr t /\
    forall g : jsstring,
      In g listing -> is_audio g = true ->
      exists tg : Z,
        statSync_mtime (path_join outputDir g)
          (outside (snd (downloadFromRss rssUrl outputDir episodeFilter w)))
          = inr tg /\
        (tg <= t)%Z.
Proof.
  destruct (downloadFromRss_cases rssUrl outputDir episodeFilter w)
    as (res & w' & -> & Hcases).
  simpl. intros [= ->].
  destruct Hcases as [(message & e1 & _ & _ & [=] & _)
                     | (e1 & outcome & _ & _ & _ & Hr)].
  destruct outcome as [message | out]; [discriminate Hr|].
  destruct Hr as (w1 & Hw1 & [Hfd | (message & _ & [=])]).
  rewrite <- Hw1.
  pose proof (find_downloaded_cases outputDir w1) as Hc.
  destruct (readdirSync outputDir (outside w1)) as [message | listing];
    [congruence|].
  destruct (existsb is_audio listing).
  - destruct Hc as [(message & g & _ & _ & _ & Hc)
                   | (n' & t & Hc & Hin & Ha & Hs & Hmax)]; [congruence|].
    rewrite Hfd in Hc. injection Hc as -> ->.
    by exists listing, t.
  - congruence.
Qed.

(** X7: when a download attempt succeeds, the file it returns is an audio
    file of the output directory as the tool left it, its path is the
    directory joined with its name, and no audio file of the directory was
    modified later. *)
Theorem download_returns_most_recent_audio
    (rssUrl : jsval) (outputDir : jsstring) (episodeFilter : jsval)
    (w : world) (filePath fileName : jsstring) :
  fst (downloadFromRss rssUrl outputDir episodeFilter w)
    = inr (Downloaded filePath fileName) ->
  exists (listing : list jsstring) (t : Z),
    readdirSync outputDir
      (outside (snd (downloadFromRss rssUrl outputDir episodeFilter w)))
      = inr listing /\
    In fileName listing /\ is_audio fileName = true /\
    filePath = path_join outputDir fileName /\
    statSync_mtime filePath
      (outside (snd (downloadFromRss rssUrl outputDir episodeFilter w)))
      = inr t /\
    forall g : jsstring,
      In g listing -> is_audio g = true ->
      exists tg : Z,
        statSync_mtime (path_join outputDir g)
          (outside (snd (downloadFromRss rssUrl outputDir episodeFilter w)))
          = inr tg /\
        (tg <= t)%Z.
Proof. apply downloadFromRss_downloaded. Qed.

(** X9: a download attempt that did not come to run the tool found no
    output directory and could not make it, and fails with the message of
    that error; an attempt whose tool run was rejected fails with the
    message of the rejection, whatever the directory holds. *)
Theorem download_failure_carries_cause
    (rssUrl : jsval) (outputDir : jsstring) (episodeFilter : jsval)
    (w : world) (evs : list event) (res : download_result) :
  trace (snd (downloadFromRss rssUrl outputDir episodeFilter w))
    = trace w ++ evs
      ++ [Attempted {| a_rssUrl := rssUrl; a_outputDir := outputDir;
                       a_episodeFilter := episodeFilter |} res] ->
  fst (downloadFromRss rssUrl outputDir episodeFilter w) = inr res /\
  (evs = [] ->
   existsSync outputDir (outside w) = false /\
   exists message,
     fst (mkdirSync outputDir (outside w)) = inl message /\
     res = NotDownloaded message) /\
  (forall command message,
     evs = [Executed command (inl message)] ->
     command = build_command rssUrl outputDir episodeFilter /\
     res = NotDownloaded message).
Proof.
  destruct (downloadFromRss_cases rssUrl outputDir episodeFilter w)
    as (res0 & w' & -> & Hcases).
  simpl. intros Ht.
  destruct Hcases as [(message & e1 & Hex & Hmk & -> & _ & Ht')
                     | (e1 & outcome & _ & _ & Ht' & Hr)];
    rewrite Ht' in Ht; apply app_inv_head in Ht.
  - change [Attempted ?a ?r] with ([] ++ [Attempted a r]) in Ht at 1.
    apply app_inj_tail in Ht as [<- [= <-]].
    split; [done|]. split.
    + intros _. split; [done|]. exists message. by rewrite Hmk.
    + by intros ?? [=].
  - change [?x; Attempted ?a ?r] with ([x] ++ [Attempted a r]) in Ht.
    apply app_inj_tail in Ht as [<- [= <-]].
    split; [done|]. split; [by intros [=]|].
    intros command message Heq. injection Heq as Hc Ho. subst.
    by split.
Qed.

(** X10: when the tool exited normally, the output directory lists an
    audio file and the times of its audio files can be read, the attempt
    succeeds, whether the tool wrote that file or an earlier run did. *)
Theorem download_succeeds_when_audio_listed
    (rssUrl : jsval) (outputDir : jsstring) (episodeFilter : jsval)
    (w : world) (command : jsstring) (out : jsstring * jsstring)
    (res : download_result) (listing : list jsstring) :
  trace (snd (downloadFromRss rssUrl outputDir episodeFilter w))
    = trace w
      ++ [Executed command (inr out);
          Attempted {| a_rssUrl := rssUrl; a_outputDir := outputDir;
                       a_episodeFilter := episodeFilter |} res] ->
  readdirSync outputDir
    (outside (snd (downloadFromRss rssUrl outputDir episodeFilter w)))
    = inr listing ->
  existsb is_audio listing = true ->
  forallb (fun g =>
             match statSync_mtime (path_join outputDir g)
                     (outside (snd (downloadFromRss rssUrl outputDir
                                      episodeFilter w))) with
             | inr _ => true
             | inl _ => false
             end)
          (List.filter is_audio listing) = true ->
  fst (downloadFromRss rssUrl outputDir episodeFilter w) = inr res /\
  success res = true.
Proof.
  destruct (downloadFromRss_cases rssUrl outputDir episodeFilter w)
    as (res0 & w' & -> & Hcases).
  simpl. intros Ht Hrd Hex Hstat.
  destruct Hcases as [(message & e1 & _ & _ & _ & _ & Ht')
                     | (e1 & outcome & _ & _ & Ht' & Hr)];
    rewrite Ht' in Ht; apply app_inv_head in Ht.
  - discriminate Ht.
  - injection Ht as Hcmd Hout Hres. subst. split; [done|].
    destruct Hr as (w1 & Hw1 & Hfd). rewrite <- Hw1 in Hrd, Hstat.
    pose proof (find_downloaded_cases outputDir w1) as Hc.
    rewrite Hrd, Hex in Hc.
    destruct Hc as [(message & g & Hg & Ha & Hs & Hc)
                   | (n & t & Hc & _)].
    + exfalso. rewrite forallb_forall in Hstat.
      specialize (Hstat g). rewrite Hs in Hstat.
      assert (false = true); [|done]. apply Hstat. by apply filter_In.
    + destruct Hfd as [Hfd | (message & Hfd & _)]; [|congruence].
      rewrite Hfd in Hc. by injection Hc as ->.
Qed.

End DownloadExtras.

(** ** The stages, further *)

Section StageExtras.
Context `{RT : Runtime}.

Ltac step := cbv beta iota; cbn [outside console trace negb fst snd].

(** What [getSpotifyInfo] does, case by case. *)
Lemma getSpotifyInfo_unfold (spotifyUrl : jsstring) (w : world) :
  getSpotifyInfo spotifyUrl w
  = match encodeURIComponent spotifyUrl with
    | inl message =>
        (inr None,
         {| outside := outside w;
            console := console w
              ++ [ConsoleError [lit "Error fetching Spotify info:"; message]];
            trace := trace w ++ [Resolved None] |})
    | inr encoded =>
        match fetch (lit "https://open.spotify.com/oembed?url=" ++ encoded)
                    (outside w) with
        | (inl message, e) =>
            (inr None,
             {| outside := e;
                console := console w
                  ++ [ConsoleError [lit "Error fetching Spotify info:";
                                    message]];
                trace := trace w ++ [Resolved None] |})
        | (inr response, e) =>
            if ok response then
              match json response with
              | inl message =>
                  (inr None,
                   {| outside := e;
                      console := console w
                        ++ [ConsoleError [lit "Error fetching Spotify info:";
                                          message]];
                      trace := trace w ++ [Resolved None] |})
              | inr data =>
                  (inr (Some {| info_title := js_or (p_title data) JNull;
                                info_type := kind_of spotifyUrl |}),
                   {| outside := e;
                      console := console w;
                      trace := trace w
                        ++ [Resolved
                              (Some {| info_title := js_or (p_title data) JNull;
                                       info_type := kind_of spotifyUrl |})]
                   |})
              end
            else
              (inr None,
               {| outside := e;
                  console := console w
                    ++ [ConsoleError
                          [lit "Spotify oEmbed failed: "
                           ++ number_to_str (status response)]];
                  trace := trace w ++ [Resolved None] |})
        end
    end.
Proof.
  unfold getSpotifyInfo, returning, try_catch, bind, throws, throw,
    outside_op, console_error, note, ret.
  destruct w as [e c t]. step.
  destruct (encodeURIComponent spotifyUrl) as [message | encoded]; step;
    [reflexivity|].
  destruct (fetch _ e) as [[message | response] e1]; step; [reflexivity|].
  destruct (ok response); step; [|reflexivity].
  by destruct (json response).
Qed.

(** X5: [getSpotifyInfo] never throws.  When it returns an object, the
    type is read off the URL alone, the title is a non-empty string or
    null, and nothing was written to the console; when it returns null,
    one [console.error] line was written. *)
Theorem getSpotifyInfo_result (spotifyUrl : jsstring) (w : world) :
  exists info : option spotify_info,
    fst (getSpotifyInfo spotifyUrl w) = inr info /\
    match info with
    | Some info =>
        info_type info
          = (if includes spotifyUrl (lit "/episode/") then episode else show) /\
        (info_title info = JNull \/ truthy (info_title info) = true) /\
        console (snd (getSpotifyInfo spotifyUrl w)) = console w
    | None =>
        exists line : list jsstring,
          console (snd (getSpotifyInfo spotifyUrl w))
          = console w ++ [ConsoleError line]
    end.
Proof.
  rewrite getSpotifyInfo_unfold.
  destruct (encodeURIComponent spotifyUrl) as [message | encoded].
  { eexists. split; [reflexivity|]. by eexists. }
  destruct (fetch _ (outside w)) as [[message | response] e1].
  { eexists. split; [reflexivity|]. by eexists. }
  destruct (ok response); [|eexists; split; [reflexivity|]; by eexists].
  destruct (json response) as [message | data].
  { eexists. split; [reflexivity|]. by eexists. }
  eexists. split; [reflexivity|]. simpl. split; [reflexivity|].
  split; [|reflexivity].
  unfold js_or. destruct (truthy (p_title data)) eqn:Htitle; [by right | by left].
Qed.

Lemma display_name_truthy (r : Search.itunes_result) :
  truthy (Search.display_name r) = true.
Proof.
  unfold Search.display_name, js_or.
  destruct (truthy (Search.r_collectionName r)) eqn:Hc.
  - by rewrite Hc.
  - destruct (truthy (Search.r_trackName r)) eqn:Ht; [by rewrite Ht|].
    reflexivity.
Qed.

Lemma search_results_usable (results : option (list Search.itunes_result))
    (f : Search.found) :
  Search.search_results results = Some f ->
  exists r : Search.itunes_result,
    f = Search.to_found r /\ Search.has_feedUrl r = true /\
    In r (default [] results).
Proof.
  destruct results as [results|]; [|done].
  rewrite search_results_find.
  destruct (List.find Search.has_feedUrl results) as [r|] eqn:Hfind; [|done].
  intros [= <-]. apply find_some in Hfind as [Hin Hr]. by exists r.
Qed.

(** X6: what [searchItunesRss] finds can be used as it is: the feedUrl and
    the collectionName are non-empty strings, taken from one record of the
    answer, and nothing was written to the console. *)
Theorem searchItunesRss_found_is_usable
    (query entity : jsstring) (w : world) (f : Search.found) :
  fst (searchItunesRss query entity w) = inr (Some f) ->
  truthy (Search.feedUrl f) = true /\
  truthy (Search.collectionName f) = true /\
  console (snd (searchItunesRss query entity w)) = console w /\
  exists (q : jsstring) (response : response) (data : payload)
         (r : Search.itunes_result),
    encodeURIComponent query = inr q /\
    fst (fetch (search_url q entity) (outside w)) = inr response /\
    ok response = true /\ json response = inr data /\
    In r (default [] (p_results data)) /\
    Search.feedUrl f = Search.r_feedUrl r.
Proof.
  rewrite searchItunesRss_unfold.
  destruct (encodeURIComponent query) as [message | q]; [done|].
  destruct (fetch _ (outside w)) as [[message | response] e1] eqn:Hfetch;
    [done|].
  destruct (ok response) eqn:Hok; [|done].
  destruct (json response) as [message | data] eqn:Hjson; [done|].
  simpl. intros [= Hf].
  destruct (search_results_usable _ _ Hf) as (r & -> & Hr & Hin).
  split; [exact Hr|]. split; [apply display_name_truthy|].
  split; [reflexivity|].
  exists q, response, data, r. rewrite Hfetch. by repeat split.
Qed.

(** X1: none of the four functions throws: every error of the network, of
    the file system and of the tool is caught and turned into a returned
    value. *)
Theorem stages_never_throw
    (spotifyUrl outputDir query entity : jsstring) (rssUrl episodeFilter : jsval)
    (w : world) :
  (exists info, fst (getSpotifyInfo spotifyUrl w) = inr info) /\
  (exists found, fst (searchItunesRss query entity w) = inr found) /\
  (exists res,
     fst (downloadFromRss rssUrl outputDir episodeFilter w) = inr res) /\
  (exists res, fst (downloadSpotifyEpisode spotifyUrl outputDir w) = inr res).
Proof.
  split; [|split; [|split]].
  - destruct (getSpotifyInfo_run spotifyUrl w) as (info & w' & -> & _).
    by exists info.
  - destruct (searchItunesRss_run query entity w) as (found & w' & -> & _).
    by exists found.
  - destruct (downloadFromRss_run rssUrl outputDir episodeFilter w)
      as (res & w' & evs & -> & _). by exists res.
  - destruct (pipeline_run spotifyUrl outputDir w) as (res & w' & evs & -> & _).
    by exists res.
Qed.

End StageExtras.

(** ** The pipeline, further *)

Section PipelineExtras.
Context `{RT : Runtime}.

Ltac step := cbv beta iota; cbn [outside console trace negb fst snd].

Lemma searchItunesRss_usable_run (query entity : jsstring) (w : world) :
  exists (itunesResult : option Search.found) (w' : world),
    searchItunesRss query entity w = (inr itunesResult, w') /\
    match itunesResult with
    | Some f =>
        truthy (Search.feedUrl f) = true /\
        truthy (Search.collectionName f) = true
    | None => True
    end.
Proof.
  rewrite searchItunesRss_unfold.
  destruct (encodeURIComponent query) as [message | encoded].
  { by eexists _, _. }
  destruct (fetch _ (outside w)) as [[message | response] e1].
  { by eexists _, _. }
  destruct (ok response); [|by eexists _, _].
  destruct (json response) as [message | data]; [by eexists _, _|].
  eexists _, _. split; [reflexivity|].
  destruct (Search.search_results (p_results data)) as [f|] eqn:Hf; [|done].
  destruct (search_results_usable _ _ Hf) as (r & -> & Hr & _).
  split; [exact Hr | apply display_name_truthy].
Qed.

Lemma truthy_to_str (v : jsval) : truthy v = true -> to_str v <> [].
Proof. by destruct v as [| |[|c s]]. Qed.

(** A run that succeeds returns what its last download attempt gave, and
    leaves the outside world as that attempt left it. *)
Lemma pipeline_succeeded (spotifyUrl outputDir : jsstring) (w : world)
    (p n title : jsstring) (podcastName rssUrl : jsval) :
  fst (downloadSpotifyEpisode spotifyUrl outputDir w)
    = inr (Succeeded p n title podcastName rssUrl) ->
  exists (episodeFilter : jsval) (w0 : world),
    fst (downloadFromRss rssUrl outputDir episodeFilter w0)
      = inr (Downloaded p n) /\
    outside (snd (downloadFromRss rssUrl outputDir episodeFilter w0))
      = outside (snd (downloadSpotifyEpisode spotifyUrl outputDir w)) /\
    truthy rssUrl = true /\ truthy podcastName = true /\ title <> [].
Proof.
  unfold downloadSpotifyEpisode, bind, console_log, ret. step.
  match goal with
  | |- context [getSpotifyInfo spotifyUrl ?W] =>
      destruct (getSpotifyInfo_run spotifyUrl W)
        as (info & w1 & -> & _ & _)
  end.
  step. destruct info as [[ttl type]|]; step; [|done].
  cbn [info_title info_type].
  destruct (truthy ttl) eqn:Htitle; step; [|done].
  match goal with
  | |- context [searchItunesRss ?q ?e ?W] =>
      destruct (searchItunesRss_usable_run q e W)
        as (found & w2 & -> & Hfound)
  end.
  step. destruct found as [found|]; step; [|done].
  destruct Hfound as [Hfeed Hname]. rewrite Hfeed. step.
  match goal with
  | |- context [downloadFromRss ?u ?d ?f ?W] =>
      destruct (downloadFromRss_run u d f W)
        as (r1 & w3 & tool1 & Hrun1 & _); rewrite Hrun1;
      assert (Hfst1 : fst (downloadFromRss u d f W) = inr r1)
        by (by rewrite Hrun1);
      assert (Hsnd1 : snd (downloadFromRss u d f W) = w3)
        by (by rewrite Hrun1)
  end.
  step.
  assert (Hone : forall w3' : world,
            outside w3' = outside w3 ->
            fst (@inr jsstring pipeline_result
                   (final_result (to_str ttl) found r1), w3')
              = inr (Succeeded p n title podcastName rssUrl) ->
            exists (episodeFilter : jsval) (w0 : world),
              fst (downloadFromRss rssUrl outputDir episodeFilter w0)
                = inr (Downloaded p n) /\
              outside (snd (downloadFromRss rssUrl outputDir episodeFilter w0))
                = outside
                    (snd (@inr jsstring pipeline_result
                            (final_result (to_str ttl) found r1), w3')) /\
              truthy rssUrl = true /\ truthy podcastName = true /\
              title <> []).
  { intros w3' Hw3'. simpl. destruct r1 as [p1 n1 | error]; [|done].
    simpl. intros [= -> -> <- <- <-].
    eexists _, _. split; [exact Hfst1|]. rewrite Hsnd1, Hw3'.
    split; [done|]. split; [done|]. split; [done|].
    by apply truthy_to_str. }
  destruct (success r1) eqn:Hs1; step; [by apply Hone|].
  destruct type; step; [|by apply Hone].
  destruct (0 <? length (Matcher.words (to_str ttl)))%nat; step;
    [|by apply Hone].
  match goal with
  | |- context [downloadFromRss ?u ?d ?f ?W] =>
      destruct (downloadFromRss_run u d f W)
        as (r2 & w4 & tool2 & Hrun2 & _); rewrite Hrun2;
      assert (Hfst2 : fst (downloadFromRss u d f W) = inr r2)
        by (by rewrite Hrun2);
      assert (Hsnd2 : snd (downloadFromRss u d f W) = w4)
        by (by rewrite Hrun2)
  end.
  step. destruct r2 as [p2 n2 | error]; [|done].
  simpl. intros [= -> -> <- <- <-].
  eexists _, _. split; [exact Hfst2|]. rewrite Hsnd2.
  split; [done|]. split; [done|]. split; [done|].
  by apply truthy_to_str.
Qed.

(** X3: when the pipeline returns a success, the file it names is an
    audio file that the output directory lists at the end of the run, its
    path is the directory joined with its name, no audio file of the
    directory was modified later, and the title, the podcast name and the
    feed URL returned with it are non-empty strings. *)
Theorem pipeline_success_is_verified
    (spotifyUrl outputDir : jsstring) (w : world)
    (filePath fileName title : jsstring) (podcastName rssUrl : jsval) :
  fst (downloadSpotifyEpisode spotifyUrl outputDir w)
    = inr (Succeeded filePath fileName title podcastName rssUrl) ->
  truthy rssUrl = true /\ truthy podcastName = true /\ title <> [] /\
  exists (listing : list jsstring) (t : Z),
    readdirSync outputDir
      (outside (snd (downloadSpotifyEpisode spotifyUrl outputDir w)))
      = inr listing /\
    In fileName listing /\ is_audio fileName = true /\
    filePath = path_join outputDir fileName /\
    statSync_mtime filePath
      (outside (snd (downloadSpotifyEpisode spotifyUrl outputDir w)))
      = inr t /\
    forall g : jsstring,
      In g listing -> is_audio g = true ->
      exists tg : Z,
        statSync_mtime (path_join outputDir g)
          (outside (snd (downloadSpotifyEpisode spotifyUrl outputDir w)))
          = inr tg /\
        (tg <= t)%Z.
Proof.
  intros Hrun.
  destruct (pipeline_succeeded _ _ _ _ _ _ _ _ Hrun)
    as (f & w0 & Hdl & Hout & Hu & Hpn & Ht).
  split; [done|]. split; [done|]. split; [done|].
  rewrite <- Hout. by apply downloadFromRss_downloaded.
Qed.

(** X2: when the title is not resolved, the lookup returned null or an
    object without title, the run returns the failure "Could not fetch
    podcast info from Spotify" and does nothing else: no search of the
    index, no download attempt, no run of the tool. *)
Theorem unresolved_title_stops_pipeline
    (spotifyUrl outputDir : jsstring) (w : world) (evs : list event)
    (info : option spotify_info) :
  trace (snd (downloadSpotifyEpisode spotifyUrl outputDir w))
    = trace w ++ evs ->
  In (Resolved info) evs ->
  title_missing info = true ->
  fst (downloadSpotifyEpisode spotifyUrl outputDir w)
    = inr (Failed (lit "Could not fetch podcast info from Spotify")) /\
  evs = [Resolved info].
Proof.
  intros Ht Hin Hmiss.
  destruct (pipeline_shape spotifyUrl outputDir w evs Ht)
    as (res & -> & Hshape).
  destruct Hshape as [info0 Hinfo | info0 Htitle Hkind
                     | info0 found tool1 r1' Htitle Hkind Hfeed Htool1 Hwhy
                     | info0 found tool1 tool2 r1' r2 Htitle Hkind Hfeed
                         Htool1 Htool2 Hs1' Hep' Hwords].
  - destruct Hin as [[= ->] | []]. done.
  - exfalso. destruct Hin as [[= <-] | [[=] | []]].
    simpl in Hmiss. by rewrite Htitle in Hmiss.
  - exfalso. destruct (tool_events_facts tool1 Htool1) as (_ & _ & Hres & _).
    simpl in Hin. destruct Hin as [[= <-] | [[=] | Hin]].
    + simpl in Hmiss. by rewrite Htitle in Hmiss.
    + apply in_app_or in Hin as [Hin | [[=] | []]]. by apply Hres in Hin.
  - exfalso.
    destruct (tool_events_facts tool1 Htool1) as (_ & _ & Hres1 & _).
    destruct (tool_events_facts tool2 Htool2) as (_ & _ & Hres2 & _).
    simpl in Hin. destruct Hin as [[= <-] | [[=] | Hin]].
    + simpl in Hmiss. by rewrite Htitle in Hmiss.
    + apply in_app_or in Hin as [Hin | [[=] | Hin]];
        [by apply Hres1 in Hin|].
      apply in_app_or in Hin as [Hin | [[=] | []]]. by apply Hres2 in Hin.
Qed.


End PipelineExtras.

(** ** The filters, further *)

Section MatcherExtras.
Import Matcher.

Lemma split_go_concat (cur : jsstring) (in_sep : bool) (s : jsstring) :
  concat (split_go cur in_sep s)
  = rev cur ++ List.filter (fun c => negb (is_sep c)) s.
Proof.
  revert cur in_sep. induction s as [|c s IH]; intros cur in_sep; simpl.
  - by rewrite !app_nil_r.
  - destruct (is_sep c); simpl.
    + destruct in_sep; simpl; by rewrite IH.
    + rewrite IH. simpl. by rewrite <- app_assoc.
Qed.

Lemma split_go_nonempty (cur : jsstring) (in_sep : bool) (s : jsstring) :
  split_go cur in_sep s <> [].
Proof.
  revert cur in_sep. induction s as [|c s IH]; intros cur in_sep; simpl.
  - done.
  - destruct (is_sep c); [destruct in_sep|]; [apply IH | done | apply IH].
Qed.

(** X12: the split loses nothing but the separators: there is always at
    least one fragment, and the fragments put end to end are the title
    without its white space, hyphens, colons and commas. *)
Theorem split_title_keeps_the_rest (title : jsstring) :
  split_title title <> [] /\
  concat (split_title title)
    = List.filter (fun c => negb (is_sep c)) title.
Proof.
  split; [apply split_go_nonempty|].
  unfold split_title. by rewrite split_go_concat.
Qed.

Lemma on_runs_in_order (P : jsstring -> bool) (s : jsstring)
    (frags : list jsstring) :
  on_runs s frags -> in_order (List.filter P frags) s.
Proof.
  induction 1 as [f Hf | f r rest frags Hf Hr Hrest Hruns IH]; simpl.
  - destruct (P f); [|done]. exists [], []. by rewrite app_nil_r.
  - destruct (P f).
    + exists [], (r ++ rest). split; [done|]. by apply in_order_app_l.
    + by apply in_order_app_l, in_order_app_l.
Qed.

Lemma filter_long_words (l : list jsstring) :
  filter (fun word : jsstring => (2 < length word)%nat) l
  = List.filter (fun word => (2 <? length word)%nat) l.
Proof.
  induction l as [|x l IH]; [done|].
  simpl. rewrite <- IH. unfold filter at 1. simpl.
  destruct (Nat.ltb_spec 2 (length x)); case_decide; (done || lia).
Qed.

(** X13: for a title without line terminator the fuzzy filter is looser
    than the exact one.  Against a whole string it matches the title
    itself, and every string without line terminator that contains the
    title; looked for inside a string, it matches every string that
    contains the title. *)
Theorem fuzzyFilter_matches_the_title (title : jsstring) :
  line_free title = true ->
  exists ts : list tok,
    tokens regex_class (partialFilter (words title)) = Some ts /\
    tmatch ts title = true /\
    tsearch ts title = true /\
    (forall pre post : jsstring, tsearch ts (pre ++ title ++ post) = true) /\
    (forall pre post : jsstring,
       line_free pre = true -> line_free post = true ->
       tmatch ts (pre ++ title ++ post) = true).
Proof.
  intros Hfree.
  eexists. split; [apply tokens_partialFilter|].
  assert (H : in_order
                (filter (fun word : jsstring => (2 < length word)%nat)
                        (split_title title)) title).
  { rewrite filter_long_words. apply on_runs_in_order, split_title_on_runs. }
  assert (Hg : tmatch (fuzzy_tokens
                         (filter (fun word : jsstring => (2 < length word)%nat)
                                 (split_title title))) title = true).
  { by apply fuzzy_tokens_gapped, in_order_gapped. }
  split; [exact Hg|]. split.
  { apply tsearch_spec. exists [], title, []. by rewrite app_nil_r. }
  split.
  - intros pre post. apply tsearch_spec. by exists pre, title, post.
  - intros pre post Hpre Hpost. apply fuzzy_tokens_gapped, in_order_gapped.
    + by rewrite !line_free_app, Hpre, Hfree, Hpost.
    + by apply in_order_app_l, in_order_app_r.
Qed.

End MatcherExtras.

(** ** The command line *)

Section CommandExtras.
Context `{RT : Runtime}.

Lemma escape_dquotes_head (s rest : jsstring) :
  escape_dquotes s <> 34 :: rest.
Proof.
  destruct s as [|c s]; simpl; [done|].
  destruct (N.eqb_spec c 34); [done|]. intros [= ->]. done.
Qed.

Lemma escape_dquotes_inj (s1 s2 : jsstring) :
  escape_dquotes s1 = escape_dquotes s2 -> s1 = s2.
Proof.
  revert s2. induction s1 as [|c1 s1 IH]; intros [|c2 s2]; simpl.
  - done.
  - by destruct (c2 =? 34).
  - by destruct (c1 =? 34).
  - destruct (N.eqb_spec c1 34) as [-> | H1], (N.eqb_spec c2 34) as [-> | H2].
    + intros [= H]. f_equal. by apply IH.
    + intros [= <- H]. symmetry in H. by apply escape_dquotes_head in H.
    + intros [= -> H]. by apply escape_dquotes_head in H.
    + intros [= -> H]. f_equal. by apply IH.
Qed.

Lemma escape_dquotes_quoted (s pre post : jsstring) :
  escape_dquotes s = pre ++ 34 :: post ->
  exists pre' : jsstring, pre = pre' ++ [92].
Proof.
  revert pre. induction s as [|c s IH]; intros pre; simpl.
  - by destruct pre.
  - destruct (N.eqb_spec c 34) as [-> | Hc].
    + destruct pre as [|a [|b pre]]; simpl.
      * done.
      * intros Heq. injection Heq as Ha _. subst a. by exists [].
      * intros Heq. injection Heq as Ha Hb H. subst a b.
        apply IH in H as (pre' & ->). by exists (92 :: 34 :: pre').
    + destruct pre as [|a pre]; simpl.
      * by intros [= ->].
      * intros Heq. injection Heq as Ha H. subst a.
        apply IH in H as (pre' & ->). by exists (c :: pre').
Qed.

(** X11: the escaping of the filter for the command line puts a backslash
    before every double quote, so that no double quote of the filter stands
    bare in the command, and it loses nothing: two filters that are escaped
    to the same text are the same filter. *)
Theorem escape_dquotes_quotes_every_quote (s : jsstring) :
  (forall pre post : jsstring,
     escape_dquotes s = pre ++ 34 :: post ->
     exists pre' : jsstring, pre = pre' ++ [92]) /\
  (forall s' : jsstring, escape_dquotes s = escape_dquotes s' -> s = s').
Proof.
  split.
  - intros pre post. apply escape_dquotes_quoted.
  - intros s'. apply escape_dquotes_inj.
Qed.

End CommandExtras.

(** ** The clean-up functions *)

Section CleanupExtras.
Context `{CR : CleanupRuntime}.

Ltac step := cbv beta iota; cbn [outside console trace negb fst snd].

(** X14: [cleanupAudioFile] never throws.  It returns true exactly when
    the path is a non-empty string, the file is there and its deletion
    does not fail; with an empty or missing path, or a file that is not
    there, it deletes nothing and changes nothing, the console included;
    it never adds an event of the pipeline to the trace. *)
Theorem cleanupAudioFile_result (filePath : jsval) (w : world) :
  exists b : bool,
    fst (cleanupAudioFile filePath w) = inr b /\
    (b = true <->
     truthy filePath = true /\
     existsSync (to_str filePath) (outside w) = true /\
     fst (unlinkSync (to_str filePath) (outside w)) = inr tt) /\
    (truthy filePath && existsSync (to_str filePath) (outside w) = false ->
     snd (cleanupAudioFile filePath w) = w) /\
    (truthy filePath && existsSync (to_str filePath) (outside w) = true ->
     outside (snd (cleanupAudioFile filePath w))
     = snd (unlinkSync (to_str filePath) (outside w))) /\
    trace (snd (cleanupAudioFile filePath w)) = trace w.
Proof.
  unfold cleanupAudioFile, present_at, try_catch, bind, outside_read,
    outside_op, console_log, console_error, ret.
  destruct w as [e c t]. step.
  destruct (truthy filePath); step.
  2: { exists false. repeat split; try done. by intros (? & _). }
  destruct (existsSync (to_str filePath) e); step.
  2: { exists false. repeat split; try done. by intros (_ & ? & _). }
  destruct (unlinkSync (to_str filePath) e) as [[message | []] e1]; step.
  - exists false. repeat split; try done. by intros (_ & _ & ?).
  - exists true. by repeat split.
Qed.

(** X15: [cleanupDownloadDir] never throws.  It returns true exactly when
    the path is a non-empty string, the directory is there and its removal
    does not fail; otherwise nothing is removed, and with an empty or
    missing path, or a directory that is not there, nothing changes at
    all. *)
Theorem cleanupDownloadDir_result (dirPath : jsval) (w : world) :
  exists b : bool,
    fst (cleanupDownloadDir dirPath w) = inr b /\
    (b = true <->
     truthy dirPath = true /\
     existsSync (to_str dirPath) (outside w) = true /\
     fst (rmSync (to_str dirPath) (outside w)) = inr tt) /\
    (truthy dirPath && existsSync (to_str dirPath) (outside w) = false ->
     snd (cleanupDownloadDir dirPath w) = w) /\
    (truthy dirPath && existsSync (to_str dirPath) (outside w) = true ->
     outside (snd (cleanupDownloadDir dirPath w))
     = snd (rmSync (to_str dirPath) (outside w))) /\
    trace (snd (cleanupDownloadDir dirPath w)) = trace w.
Proof.
  unfold cleanupDownloadDir, present_at, try_catch, bind, outside_read,
    outside_op, console_log, console_error, ret.
  destruct w as [e c t]. step.
  destruct (truthy dirPath); step.
  2: { exists false. repeat split; try done. by intros (? & _). }
  destruct (existsSync (to_str dirPath) e); step.
  2: { exists false. repeat split; try done. by intros (_ & ? & _). }
  destruct (rmSync (to_str dirPath) e) as [[message | []] e1]; step.
  - exists false. repeat split; try done. by intros (_ & _ & ?).
  - exists true. by repeat split.
Qed.

End CleanupExtras.

(** ** The script and the module *)

Section ScriptExtras.
Import Search Script.

Lemma py_get_truthy (v : jsval) :
  truthy (py_get v (JStr [])) = truthy v.
Proof. by destruct v. Qed.

Lemma py_get_of_truthy (v : jsval) :
  truthy v = true -> py_get v (JStr []) = v.
Proof. by destruct v. Qed.

(** The list [unique] of the script holds the results the deduplication
    by feedUrl keeps. *)
Lemma unique_from_dedup (seen : gset jsval) (results : list itunes_result) :
  map to_found (unique_from seen results) = dedup_by_feedUrl seen results.
Proof.
  revert seen. induction results as [|r results IH]; intros seen; [done|].
  simpl. rewrite py_get_truthy.
  destruct (truthy (r_feedUrl r)) eqn:Hr; simpl; [|apply IH].
  rewrite (py_get_of_truthy _ Hr).
  destruct (bool_decide (r_feedUrl r ∈ seen)); simpl; [apply IH|].
  by rewrite IH.
Qed.

Lemma unique_from_has_feedUrl (seen : gset jsval)
    (results : list itunes_result) :
  Forall (fun r => has_feedUrl r = true /\ In r results)
         (unique_from seen results).
Proof.
  revert seen. induction results as [|r results IH]; intros seen;
    [constructor|].
  simpl. rewrite py_get_truthy.
  destruct (truthy (r_feedUrl r) && negb _) eqn:Hkeep.
  - apply andb_prop in Hkeep as [Hr _]. constructor; [split; [done | by left]|].
    eapply Forall_impl; [apply IH|]. intros x [? ?]. split; [done | by right].
  - eapply Forall_impl; [apply IH|]. intros x [? ?]. split; [done | by right].
Qed.

(** X16: the script and the module choose the same feed.  The list that the
    script deduplicates holds results of the answer that bear a feedUrl,
    no feedUrl twice; the feedUrl that [searchItunesRss] returns is the one
    of its first entry, and the module finds nothing exactly when that list
    is empty. *)
Theorem script_and_module_choose_same_feed (results : list itunes_result) :
  Forall (fun r => has_feedUrl r = true /\ In r results) (unique results) /\
  NoDup (map r_feedUrl (unique results)) /\
  map feedUrl (candidates results)
    = take 1 (map r_feedUrl (unique results)) /\
  (search_results (Some results) = None <-> unique results = []).
Proof.
  assert (Hmap : map r_feedUrl (unique results)
                 = map feedUrl (dedup_by_feedUrl ∅ results)).
  { unfold unique. rewrite <- unique_from_dedup, map_map. done. }
  assert (Hcand : candidates results = take 1 (dedup_by_feedUrl ∅ results)).
  { unfold candidates. rewrite search_results_find, take_1_head,
      dedup_by_feedUrl_head; [done | apply falsy_only_empty]. }
  split; [apply unique_from_has_feedUrl|]. split.
  { rewrite Hmap. apply dedup_by_feedUrl_NoDup. }
  split.
  { rewrite Hcand, Hmap. by rewrite <- !fmap_take. }
  rewrite search_results_find.
  pose proof (dedup_by_feedUrl_head ∅ results falsy_only_empty) as Hhead.
  unfold unique. rewrite <- unique_from_dedup in Hhead.
  destruct (unique_from ∅ results) as [|r rest];
    destruct (List.find has_feedUrl results); simpl in Hhead; try done.
Qed.

(** A result that bears a feedUrl has it in [seen], or in [unique]. *)
Lemma unique_from_complete (seen : gset jsval)
    (results : list itunes_result) (r : itunes_result) :
  In r results -> has_feedUrl r = true ->
  r_feedUrl r ∈ seen \/
  In (r_feedUrl r) (map r_feedUrl (unique_from seen results)).
Proof.
  revert seen. induction results as [|r0 results IH]; intros seen Hin Hr;
    [destruct Hin|].
  simpl. rewrite py_get_truthy.
  destruct (truthy (r_feedUrl r0)) eqn:Hr0; simpl.
  - rewrite (py_get_of_truthy _ Hr0).
    destruct (bool_decide (r_feedUrl r0 ∈ seen)) eqn:Hseen; simpl.
    + apply bool_decide_eq_true in Hseen.
      destruct Hin as [-> | Hin]; [by left|]. by apply IH.
    + destruct Hin as [-> | Hin]; [right; by left|].
      destruct (IH ({[r_feedUrl r0]} ∪ seen) Hin Hr) as [Hs | Hu].
      * apply elem_of_union in Hs as [Hs | Hs]; [|by left].
        apply elem_of_singleton in Hs. right. left. done.
      * right. by right.
  - destruct Hin as [-> | Hin]; [unfold has_feedUrl in Hr; congruence|].
    by apply IH.
Qed.

Lemma listing_lines_length (i : Z) (entries : list itunes_result) :
  (length (listing_lines i entries) <= length entries)%nat.
Proof.
  revert i. induction entries as [|r entries IH]; intros i; [simpl; lia|].
  cbn [listing_lines].
  destruct (py_get (r_collectionName r) (JStr (lit "Unknown")));
    cbn [length]; try lia.
  specialize (IH (i + 1)%Z). lia.
Qed.

(** X17: when the script prints [SINGLE:] and a URL, the module finds the
    feed with that very URL, and every result of the answer that bears a
    feedUrl bears that one. *)
Theorem script_single_is_module_feed
    (results : list itunes_result) (url : jsstring) :
  interactive_lines (Some results) = [lit "SINGLE:" ++ url] ->
  exists f : found,
    search_results (Some results) = Some f /\
    to_str (feedUrl f) = url /\
    Forall (fun r => has_feedUrl r = true -> r_feedUrl r = feedUrl f) results.
Proof.
  unfold interactive_lines. destruct results as [|r0 results]; [done|].
  pose proof (unique_from_has_feedUrl ∅ (r0 :: results)) as Hhas.
  pose proof (dedup_by_feedUrl_head ∅ (r0 :: results) falsy_only_empty)
    as Hhead.
  rewrite <- unique_from_dedup in Hhead.
  pose proof (unique_from_complete ∅ (r0 :: results)) as Hall.
  fold (unique (r0 :: results)) in Hhas, Hhead, Hall.
  destruct (unique (r0 :: results)) as [|r [|r2 rest]]; [done | | done].
  intros [= Hurl].
  apply Forall_cons_1 in Hhas as [[Hr _] _].
  rewrite (py_get_of_truthy _ Hr) in Hurl.
  rewrite search_results_find.
  destruct (List.find has_feedUrl (r0 :: results)) as [r'|];
    simpl in Hhead; [|done].
  injection Hhead as Hfeed _. exists (to_found r').
  split; [done|]. split; [simpl; by rewrite <- Hfeed|].
  apply List.Forall_forall. intros x Hx Hxf. simpl. rewrite <- Hfeed.
  destruct (Hall x Hx Hxf) as [Hs | [<- | []]]; [set_solver | done].
Qed.

(** X18: the script prints six lines at most; it prints [NO_RESULTS]
    exactly when the answer has no result; and when the answer has
    results of which none bears a feedUrl, where the module returns null,
    the script prints [MULTIPLE] and no entry. *)
Theorem script_output_shape (results : option (list itunes_result)) :
  (length (interactive_lines results) <= 6)%nat /\
  (interactive_lines results = [lit "NO_RESULTS"] <->
   default [] results = []) /\
  (default [] results <> [] ->
   search_results results = None ->
   interactive_lines results = [lit "MULTIPLE"]).
Proof.
  destruct results as [[|r0 results]|].
  - split; [simpl; lia|]. split; [done|]. by intros H.
  - pose proof (dedup_by_feedUrl_head ∅ (r0 :: results) falsy_only_empty)
      as Hhead.
    rewrite <- unique_from_dedup in Hhead.
    fold (unique (r0 :: results)) in Hhead.
    assert (Hfind : search_results (Some (r0 :: results))
                    = to_found <$> List.find has_feedUrl (r0 :: results))
      by apply search_results_find.
    assert (Hnone : search_results (Some (r0 :: results)) = None ->
                    unique (r0 :: results) = []).
    { rewrite Hfind. intros Hn.
      destruct (List.find has_feedUrl (r0 :: results)); [done|].
      by destruct (unique (r0 :: results)). }
    unfold interactive_lines. cbn [default].
    destruct (unique (r0 :: results)) as [|r [|r2 rest]] eqn:Hu.
    + split; [simpl; lia|]. split; [|done].
      split; [|done]. intros H. apply (f_equal head) in H.
      vm_compute in H. discriminate H.
    + split; [simpl; lia|]. split.
      * split; [|done]. intros H. apply (f_equal head) in H.
        vm_compute in H. discriminate H.
      * intros _ Hn. by apply Hnone in Hn.
    + split.
      { pose proof (listing_lines_length 1 (take 5 (r :: r2 :: rest))) as Hl.
        rewrite length_take in Hl. cbn [length] in *. lia. }
      split.
      * split; [|done]. intros H. apply (f_equal head) in H.
        vm_compute in H. discriminate H.
      * intros _ Hn. by apply Hnone in Hn.
  - split; [simpl; lia|]. split; [done|]. by intros H.
Qed.

Lemma sed_class_chars (c : code_unit) :
  sed_class c = true <-> In c (lit "\[.*^$()+?{|").
Proof.
  unfold sed_class.
  set (l := lit _). vm_compute in l. subst l. simpl.
  rewrite !Bool.orb_true_iff, !N.eqb_eq. intuition congruence.
Qed.

Lemma sed_class_regex_class (c : code_unit) :
  c <> 93 -> sed_class c = Matcher.regex_class c.
Proof.
  intros Hc. apply Bool.eq_iff_eq_true.
  rewrite sed_class_chars, regex_class_chars.
  set (l1 := lit _). vm_compute in l1. subst l1.
  set (l2 := lit _). vm_compute in l2. subst l2.
  simpl. intuition congruence.
Qed.

(** The two substitutions agree on every line without a closing bracket,
    and on no other: [sed] leaves [ ] ] as it is, the module puts a
    backslash before it. *)
Lemma sed_escape_escape_regex (title : jsstring) :
  sed_escape title = Matcher.escape_regex title <-> ~ In 93 title.
Proof.
  induction title as [|c title IH]; simpl; [tauto|].
  destruct (N.eq_dec c 93) as [-> | Hc].
  - change (sed_class 93) with false.
    change (Matcher.regex_class 93) with true. split; [done|].
    intros H. exfalso. apply H. by left.
  - rewrite (sed_class_regex_class c Hc).
    destruct (Matcher.regex_class c); split.
    + intros [= H]. apply IH in H. intros [? | ?]; [congruence | done].
    + intros H. do 2 f_equal. apply IH. tauto.
    + intros [= H]. apply IH in H. intros [? | ?]; [congruence | done].
    + intros H. f_equal. apply IH. tauto.
Qed.

Lemma sed_escape_app (s1 s2 : jsstring) :
  sed_escape (s1 ++ s2) = sed_escape s1 ++ sed_escape s2.
Proof.
  induction s1 as [|c s1 IH]; [done|].
  simpl. destruct (sed_class c); simpl; by rewrite IH.
Qed.

(** The newline is not in the bracket expression: line by line or on the
    whole input, the substitution gives the same text. *)
Lemma sed_lines_sed_escape (cur input : jsstring) :
  sed_lines cur input = sed_escape (rev cur ++ input).
Proof.
  revert cur. induction input as [|c input IH]; intros cur; simpl.
  - by rewrite app_nil_r.
  - destruct (N.eqb_spec c 10) as [-> | Hc].
    + rewrite IH, (sed_escape_app (rev cur)). reflexivity.
    + rewrite IH. simpl. by rewrite <- app_assoc.
Qed.

Lemma command_substitution_newline (out : jsstring) :
  command_substitution (out ++ [10]) = command_substitution out.
Proof.
  induction out as [|c out IH]; [done|].
  simpl. by rewrite IH.
Qed.

Lemma command_substitution_last (out : jsstring) :
  last (command_substitution out) <> Some 10.
Proof.
  induction out as [|c out IH]; [done|].
  simpl. destruct (command_substitution out) as [|d rest].
  - destruct (N.eqb_spec c 10) as [-> | Hc]; [done|].
    simpl. congruence.
  - exact IH.
Qed.

Lemma command_substitution_id (out : jsstring) :
  last out <> Some 10 -> command_substitution out = out.
Proof.
  induction out as [|c out IH]; [done|].
  destruct out as [|d out].
  - simpl. intros Hc. destruct (N.eqb_spec c 10) as [-> | _]; done.
  - intros Hlast. change (last (c :: d :: out)) with (last (d :: out)) in Hlast.
    change (command_substitution (c :: d :: out))
      with (match command_substitution (d :: out) with
            | [] => if c =? 10 then [] else [c]
            | rest => c :: rest
            end).
    by rewrite (IH Hlast).
Qed.

Lemma last_sed_escape (s : jsstring) : last (sed_escape s) = last s.
Proof.
  induction s as [|c s IH]; [done|].
  simpl. destruct s as [|d s].
  - by destruct (sed_class c).
  - change (last (c :: d :: s)) with (last (d :: s)). rewrite <- IH.
    destruct (sed_escape (d :: s)) as [|x l] eqn:Hd.
    { simpl in Hd. by destruct (sed_class d). }
    by destruct (sed_class c).
Qed.

Lemma last_escape_regex (s : jsstring) :
  last (Matcher.escape_regex s) = last s.
Proof.
  induction s as [|c s IH]; [done|].
  simpl. destruct s as [|d s].
  - by destruct (Matcher.regex_class c).
  - change (last (c :: d :: s)) with (last (d :: s)). rewrite <- IH.
    destruct (Matcher.escape_regex (d :: s)) as [|x l] eqn:Hd.
    { simpl in Hd. by destruct (Matcher.regex_class d). }
    by destruct (Matcher.regex_class c).
Qed.

(** X19: line 261 of the script against line 177 of the module.  The
    filter of the script is the filter of the module for the titles that
    have no closing bracket, that [echo] does not take for options and that
    do not end with a newline, and for no other title: [sed] leaves [ ] ]
    as it is, a title such as [-n] is lost in [echo], and the newlines that
    end a title are lost in the command substitution. *)
Theorem script_filter_agrees_with_module (title : jsstring) :
  script_filter title = Matcher.episodeFilter title <->
  ~ In 93 title /\ echo_option title = false /\ last title <> Some 10.
Proof.
  unfold script_filter, Matcher.episodeFilter, sed, echo.
  destruct (echo_option title) eqn:Hopt.
  - assert (Hout : command_substitution
                     (sed_lines []
                        (if existsb (fun f => f =? 110) title
                         then [] else [10])) = []).
    { by destruct (existsb (fun f => f =? 110) title). }
    rewrite Hout. split; [|by intros (_ & ? & _)].
    destruct title as [|c title]; [discriminate Hopt|].
    simpl. by destruct (Matcher.regex_class c).
  - rewrite sed_lines_sed_escape. simpl rev. simpl app.
    rewrite sed_escape_app. change (sed_escape [10]) with [10].
    rewrite command_substitution_newline. split.
    + intros Heq.
      assert (Hlast : last title <> Some 10).
      { rewrite <- last_escape_regex, <- Heq.
        apply command_substitution_last. }
      split; [|by split].
      apply sed_escape_escape_regex.
      rewrite <- Heq. symmetry. apply command_substitution_id.
      by rewrite last_sed_escape.
    + intros (Hbr & _ & Hlast).
      rewrite command_substitution_id by (by rewrite last_sed_escape).
      by apply sed_escape_escape_regex.
Qed.

End ScriptExtras.

(** ** The further properties on concrete runs *)

Section ExtraWitnesses.
Import Fixture Scenario.

(** The lookup answers 404: the run stops at once. *)
Lemma oembed_404_stops_pipeline :
  fst (downloadSpotifyEpisode episode_url out_dir (start st_oembed_404))
    = inr (Failed (lit "Could not fetch podcast info from Spotify")) /\
  [Resolved None] = [Resolved None].
Proof.
  apply (unresolved_title_stops_pipeline episode_url out_dir
           (start st_oembed_404) [Resolved None] None).
  - reflexivity.
  - simpl. by left.
  - reflexivity.
Defined.

(** The lookup answers without title: the run stops as well. *)
Example missing_title_stops_pipeline :
  fst (downloadSpotifyEpisode episode_url out_dir (start st_no_title))
    = inr (Failed (lit "Could not fetch podcast info from Spotify")) /\
  trace (snd (downloadSpotifyEpisode episode_url out_dir (start st_no_title)))
    = [Resolved (Some {| info_title := JNull; info_type := episode |})].
Proof. split; vm_compute; reflexivity. Qed.

(** The show of [st_show]: the file returned is the later of the two. *)
Lemma show_success_is_verified :
  is_audio (lit "two.m4a") = true /\
  lit "./downloads/two.m4a" = path_join out_dir (lit "two.m4a") /\
  truthy feed_x = true.
Proof.
  destruct (pipeline_success_is_verified show_url out_dir (start st_show)
              (lit "./downloads/two.m4a") (lit "two.m4a") (lit "My Show")
              (JStr (lit "First Name")) feed_x)
    as (Hu & _ & _ & listing & t & _ & _ & Ha & Hp & _).
  - vm_compute. reflexivity.
  - by repeat split.
Defined.

(** What the search finds for the answer of [st_retry]. *)
Lemma found_for_retry_is_usable :
  truthy (Search.feedUrl (Search.to_found result_x1)) = true /\
  truthy (Search.collectionName (Search.to_found result_x1)) = true.
Proof.
  destruct (searchItunesRss_found_is_usable
              (lit "Episode 42: Deep Dive") (lit "podcastEpisode")
              (start st_retry) (Search.to_found result_x1))
    as (Hf & Hn & _).
  - vm_compute. reflexivity.
  - by split.
Defined.

(** One attempt on the feed of [st_show]: the later file. *)
Lemma attempt_returns_later_file :
  exists (listing : list jsstring) (t : Z),
    readdirSync out_dir
      (outside (snd (downloadFromRss feed_x out_dir JNull (start st_show))))
      = inr listing /\
    In (lit "two.m4a") listing /\ is_audio (lit "two.m4a") = true /\
    lit "./downloads/two.m4a" = path_join out_dir (lit "two.m4a") /\
    statSync_mtime (lit "./downloads/two.m4a")
      (outside (snd (downloadFromRss feed_x out_dir JNull (start st_show))))
      = inr t /\
    forall g : jsstring,
      In g listing -> is_audio g = true ->
      exists tg : Z,
        statSync_mtime (path_join out_dir g)
          (outside (snd (downloadFromRss feed_x out_dir JNull
                           (start st_show))))
          = inr tg /\
        (tg <= t)%Z.
Proof.
  apply (download_returns_most_recent_audio feed_x out_dir JNull
           (start st_show)).
  vm_compute. reflexivity.
Defined.

(** The tool fails while the directory holds an older download: the
    attempt fails with the message of the tool. *)
Lemma tool_failure_is_reported :
  fst (downloadFromRss feed_x out_dir JNull (start st_tool_fails))
    = inr (NotDownloaded (lit "Command failed: npx podcast-dl")).
Proof.
  apply (download_failure_carries_cause feed_x out_dir JNull
           (start st_tool_fails)
           [Executed (build_command feed_x out_dir JNull)
                     (inl (lit "Command failed: npx podcast-dl"))]
           (NotDownloaded (lit "Command failed: npx podcast-dl"))).
  vm_compute. reflexivity.
Defined.

(** The tool writes nothing and the directory holds older downloads: the
    attempt succeeds all the same. *)
Lemma stale_file_is_a_success :
  fst (downloadFromRss feed_x out_dir JNull (start st_stale))
    = inr (Downloaded (lit "./downloads/old.mp3") (lit "old.mp3")) /\
  success (Downloaded (lit "./downloads/old.mp3") (lit "old.mp3")) = true.
Proof.
  apply (download_succeeds_when_audio_listed feed_x out_dir JNull
           (start st_stale) (build_command feed_x out_dir JNull) ([], [])
           (Downloaded (lit "./downloads/old.mp3") (lit "old.mp3"))
           [lit "old.mp3"; lit "older.wav"; lit "cover.jpg"]).
  - vm_compute. reflexivity.
  - vm_compute. reflexivity.
  - reflexivity.
  - vm_compute. reflexivity.
Defined.

(** The title of the retried episode has no line terminator: its fuzzy
    filter matches it, alone or inside a longer string. *)
Lemma deep_dive_title_is_matched :
  exists ts : list Matcher.tok,
    Matcher.tokens Matcher.regex_class
      (Matcher.partialFilter (Matcher.words (lit "Episode 42: Deep Dive")))
      = Some ts /\
    Matcher.tmatch ts (lit "Episode 42: Deep Dive") = true /\
    Matcher.tsearch ts (lit "Episode 42: Deep Dive") = true /\
    (forall pre post : jsstring,
       Matcher.tsearch ts (pre ++ lit "Episode 42: Deep Dive" ++ post)
       = true) /\
    (forall pre post : jsstring,
       Matcher.line_free pre = true -> Matcher.line_free post = true ->
       Matcher.tmatch ts (pre ++ lit "Episode 42: Deep Dive" ++ post)
       = true).
Proof.
  apply (fuzzyFilter_matches_the_title (lit "Episode 42: Deep Dive")).
  reflexivity.
Defined.

(** Two results with one feed: the script prints it as the single feed,
    and the module finds it. *)
Lemma single_feed_for_same_feed_twice :
  exists f : Search.found,
    Search.search_results (Some [result_x1; result_x2]) = Some f /\
    to_str (Search.feedUrl f) = lit "https://feed.example/x.xml" /\
    Forall (fun r => Search.has_feedUrl r = true ->
                     Search.r_feedUrl r = Search.feedUrl f)
           [result_x1; result_x2].
Proof.
  apply script_single_is_module_feed. vm_compute. reflexivity.
Defined.

(** An answer of the index that cannot be parsed: null, one line on the
    console, and the run fails without a download. *)
Example garbled_answer_is_null :
  fst (searchItunesRss (lit "Episode 42: Deep Dive") (lit "podcastEpisode")
         (start st_index_garbled)) = inr None /\
  console (snd (searchItunesRss (lit "Episode 42: Deep Dive")
                  (lit "podcastEpisode") (start st_index_garbled)))
    = [ConsoleError [lit "Error searching iTunes:"; lit "Unexpected token <"]]
  /\
  fst (downloadSpotifyEpisode episode_url out_dir (start st_index_garbled))
    = inr (Failed (lit "Could not find RSS feed in iTunes")).
Proof. repeat split; vm_compute; reflexivity. Qed.

(** The clean-up of a file that cannot be deleted returns false; of the
    empty path, false as well, and the world is as it was. *)
Example cleanup_runs :
  fst (cleanupAudioFile (JStr blocked) (start st_stale)) = inr false /\
  fst (cleanupAudioFile (JStr (lit "./downloads/old.mp3")) (start st_stale))
    = inr true /\
  cleanupAudioFile (JStr []) (start st_stale) = (inr false, start st_stale) /\
  fst (cleanupDownloadDir (JStr out_dir) (start st_stale)) = inr true.
Proof. repeat split; vm_compute; reflexivity. Qed.

(** The filter of the script: as the module's for a plain title, without
    the backslash before a closing bracket, and empty for a title that
    [echo] takes for an option. *)
Example script_filter_runs :
  Script.script_filter (lit "What is 2+2? (Part 1)")
    = Matcher.episodeFilter (lit "What is 2+2? (Part 1)") /\
  Script.script_filter (lit "[Live] Q&A") = 92 :: lit "[Live] Q&A" /\
  Matcher.episodeFilter (lit "[Live] Q&A")
    = 92 :: lit "[Live" ++ 92 :: lit "] Q&A" /\
  Script.script_filter (lit "-n") = [] /\
  Matcher.episodeFilter (lit "-n") = lit "-n".
Proof. repeat split; vm_compute; reflexivity. Qed.

(** What the script prints for two feeds, one of them twice; a missing
    collectionName is printed as "Unknown". *)
Example script_lists_feeds :
  Script.interactive_lines
    (Some [result_x1; result_nofeed; result_y; result_x2])
  = [lit "MULTIPLE";
     lit "1" ++ [9] ++ lit "First Name" ++ [9]
       ++ lit "https://feed.example/x.xml";
     lit "2" ++ [9] ++ lit "Unknown" ++ [9]
       ++ lit "https://feed.example/y.xml"].
Proof. vm_compute. reflexivity. Qed.

End ExtraWitnesses.
